(** * csim.c: a set-associative cache simulator (LRU, write-back, write-allocate)

    Shallow embedding of the simulation core of [src/csim.c]: the address
    decoding at the head of [updateData], the recency counters
    ([updateLastUsed], [findLeastRecentlyUsed]), the lookup [isMiss], the
    install and eviction paths of [updateCache], the statistics, and the
    record loop of [main]; then of the option handling of [parseArgument]
    and of the transpose functions of [src/trans.c].

    Conventions.
    - C integers are values of [Z].  The statistics are [unsigned long]
      counters: every [+=], [-=] and [++] on them is reduced modulo [2^64].
    - Operations that C leaves undefined (a shift of an [int] or a [long] by
      a count outside its width, a left shift whose result does not fit an
      [int]) have no result in the model: they return [None].
    - [>>] on a negative [long] is the arithmetic shift of the usual
      compilers, which is [Z.shiftr].
    - [lastUsed] is a [long] that grows by at most one per access; the model
      keeps it exact (it would need [2^63] accesses to one set to leave the
      range of [long]).
    - The globals [s], [E] and [b] are fixed once by [parseArgument]; they
      are the variables of the section below.  [cache[set]] is an array of
      [E] lines: the functions that receive the index [set] in C receive
      that array here, and [updateData] does the indexing and the write
      back. *)

From Stdlib Require Import ZArith Lia Ascii.
From stdpp Require Import base decidable option list numbers.

Open Scope Z_scope.

(** ** Machine arithmetic *)

(** Reduction of a value to [unsigned long]. *)
Definition ulong (x : Z) : Z := x mod 2 ^ 64.

Definition INT_MAX : Z := 2 ^ 31 - 1.

(** [x << n] on [int]: defined for a non-negative [x], a count within the
    width, and a representable result. *)
Definition shl_int (x n : Z) : option Z :=
  if (0 <=? n) && (n <? 32) && (0 <=? x) && (Z.shiftl x n <=? INT_MAX)
  then Some (Z.shiftl x n) else None.

(** [x >> n] on [long]: defined for a count within the width. *)
Definition shr_long (x n : Z) : option Z :=
  if (0 <=? n) && (n <? 64) then Some (Z.shiftr x n) else None.

(** A 64-bit address pattern read as the [long] that [updateData] receives,
    and a [long] read back as its 64-bit pattern. *)
Definition to_long (u : Z) : Z := if u <? 2 ^ 63 then u else u - 2 ^ 64.
Definition of_long (x : Z) : Z := x mod 2 ^ 64.

(** ** Data *)

Record cacheLine : Type := mkLine {
  valid : Z;      (* int valid *)
  tag : Z;        (* long tag *)
  dirty : Z;      (* unsigned long dirty *)
  lastUsed : Z    (* long lastUsed *)
}.

Definition set_dirty (v : Z) (l : cacheLine) : cacheLine :=
  mkLine (valid l) (tag l) v (lastUsed l).
Definition set_lastUsed (v : Z) (l : cacheLine) : cacheLine :=
  mkLine (valid l) (tag l) (dirty l) v.
Definition set_valid_tag (v t : Z) (l : cacheLine) : cacheLine :=
  mkLine v t (dirty l) (lastUsed l).

(** Modelled from the spec: [csim_stats_t] is declared in [cache.h], which
    is not part of the sources at hand.  The spec lists its five counters;
    the code adds [(unsigned long)pow(2, b)] to them, and they are taken to
    be [unsigned long]. *)
Record csim_stats_t : Type := mkStats {
  hits : Z;
  misses : Z;
  evictions : Z;
  dirty_bytes : Z;
  dirty_evictions : Z
}.

(** [cacheLine **cache]: an array of sets, each an array of lines. *)
Abbreviation cache_t := (list (list cacheLine)).

Record state : Type := mkState {
  cache : cache_t;
  stats : csim_stats_t
}.

(** A record of the trace after [main] has split it: [Op Addr,Size]. *)
Record traceRecord : Type := mkRecord {
  rec_op : ascii;
  rec_addr : Z;
  rec_size : Z
}.

Definition dirtyAt (set : list cacheLine) (i : nat) : Z :=
  from_option dirty 0 (set !! i).
Definition lastUsedAt (set : list cacheLine) (i : nat) : Z :=
  from_option lastUsed 0 (set !! i).

(** The test of the lookup loop: [valid == 1 && tag == tag]. *)
Definition line_hit (t : Z) (l : cacheLine) : Prop := valid l = 1 /\ tag l = t.
(** The test of the install loop: [valid == 0]. *)
Definition line_free (l : cacheLine) : Prop := valid l = 0.

#[global] Instance line_hit_dec t l : Decision (line_hit t l).
Proof. unfold line_hit. apply _. Defined.
#[global] Instance line_free_dec l : Decision (line_free l).
Proof. unfold line_free. apply _. Defined.

Definition is_store (operation : ascii) : bool := Ascii.eqb operation "S"%char.
Definition is_load (operation : ascii) : bool := Ascii.eqb operation "L"%char.

Definition Zsum (l : list Z) : Z := foldr Z.add 0 l.

Section Simulator.

(** Globals set from the command line. *)
Variables (s E b : Z).

(** What [parseArgument] lets through. *)
Definition accepted_geometry : Prop := 0 <= s /\ 1 <= E /\ 0 <= b /\ s + b <= 64.

(** The geometries on which every operation of the run is defined in C:
    [1 << s] fits an [int] and no shift count reaches the width. *)
Definition defined_geometry : Prop := 0 <= s <= 30 /\ 1 <= E /\ 0 <= b /\ s + b <= 63.

(** [(unsigned long)pow(2, b)]; it is evaluated only after the shifts of
    [updateData] went through, hence with [0 <= b < 64]. *)
Definition blockSize : Z := 2 ^ b.

(** [init]: [2^s] sets of [E] lines with [valid], [lastUsed] and [dirty]
    cleared.  [init] does not write [tag]; [junk i j] is what the allocation
    left there. *)
Definition init (junk : nat -> nat -> Z) : cache_t :=
  let S := 2 ^ s in
  map (fun i => map (fun j => mkLine 0 (junk i j) 0 0) (seq 0 (Z.to_nat E)))
      (seq 0 (Z.to_nat S)).

(** The statistics are a global object, zero at start. *)
Definition stats0 : csim_stats_t := mkStats 0 0 0 0 0.

Definition init_state (junk : nat -> nat -> Z) : state := mkState (init junk) stats0.

(** [updateLastUsed]: the line at [offset] gets 0, then the loop adds one
    to every other line. *)
Definition updateLastUsed (set : list cacheLine) (offset : nat) : list cacheLine :=
  imap (fun i l => if decide (i = offset) then l else set_lastUsed (lastUsed l + 1) l)
       (alter (set_lastUsed 0) offset set).

(** [findLeastRecentlyUsed]: the scan with [maxIndex], from index 0. *)
Definition findLeastRecentlyUsed (set : list cacheLine) : nat :=
  fold_left
    (fun maxIndex i => if lastUsedAt set i >? lastUsedAt set maxIndex then i else maxIndex)
    (seq 0 (length set)) 0%nat.

Definition add_dirty_bytes (st : csim_stats_t) : csim_stats_t :=
  mkStats (hits st) (misses st) (evictions st)
          (ulong (dirty_bytes st + blockSize)) (dirty_evictions st).
Definition sub_dirty_bytes (st : csim_stats_t) : csim_stats_t :=
  mkStats (hits st) (misses st) (evictions st)
          (ulong (dirty_bytes st - blockSize)) (dirty_evictions st).
Definition add_dirty_evictions (st : csim_stats_t) : csim_stats_t :=
  mkStats (hits st) (misses st) (evictions st)
          (dirty_bytes st) (ulong (dirty_evictions st + blockSize)).
Definition incr_hits (st : csim_stats_t) : csim_stats_t :=
  mkStats (ulong (hits st + 1)) (misses st) (evictions st)
          (dirty_bytes st) (dirty_evictions st).
Definition incr_misses (st : csim_stats_t) : csim_stats_t :=
  mkStats (hits st) (ulong (misses st + 1)) (evictions st)
          (dirty_bytes st) (dirty_evictions st).
Definition incr_evictions (st : csim_stats_t) : csim_stats_t :=
  mkStats (hits st) (misses st) (ulong (evictions st + 1))
          (dirty_bytes st) (dirty_evictions st).

(** [isMiss]: the first line that matches is the hit; it becomes the most
    recently used and a store marks it dirty if it was clean. *)
Definition isMiss (set : list cacheLine) (t : Z) (operation : ascii)
    (st : csim_stats_t) : bool * list cacheLine * csim_stats_t :=
  match list_find (line_hit t) set with
  | Some (i, _) =>
      let set1 := updateLastUsed set i in
      if is_store operation && (dirtyAt set1 i =? 0)
      then (false, alter (set_dirty 1) i set1, add_dirty_bytes st)
      else (false, set1, st)
  | None => (true, set, st)
  end.

(** First loop of [updateCache]: the first line with [valid == 0] is
    installed.  The result is [isFull], the value of [i] after the loop and
    the set. *)
Definition installFree (set : list cacheLine) (t : Z) : bool * nat * list cacheLine :=
  match list_find line_free set with
  | Some (i, _) =>
      (false, i,
       updateLastUsed (alter (fun l => set_dirty 0 (set_valid_tag 1 t l)) i set) i)
  | None => (true, length set, set)
  end.

(** The [if (isFull)] block of [updateCache]. *)
Definition evictLine (set : list cacheLine) (t : Z) (st : csim_stats_t)
    : nat * list cacheLine * csim_stats_t :=
  let evicted := findLeastRecentlyUsed set in
  let set1 := alter (set_valid_tag 1 t) evicted set in
  let '(set2, st2) :=
    if dirtyAt set1 evicted =? 0 then (set1, st)
    else (alter (set_dirty 0) evicted set1, sub_dirty_bytes (add_dirty_evictions st)) in
  (evicted, updateLastUsed set2 evicted, st2).

(** The [if (operation == 'S')] block of [updateCache]. *)
Definition markStore (set : list cacheLine) (index : nat) (operation : ascii)
    (st : csim_stats_t) : list cacheLine * csim_stats_t :=
  if is_store operation then (alter (set_dirty 1) index set, add_dirty_bytes st)
  else (set, st).

Definition updateCache (set : list cacheLine) (t : Z) (operation : ascii)
    (st : csim_stats_t) : bool * list cacheLine * csim_stats_t :=
  let '(isFull, i, set1) := installFree set t in
  let '(index, set2, st2) :=
    if isFull then evictLine set1 t st else (i, set1, st) in
  let '(set3, st3) := markStore set2 index operation st2 in
  (isFull, set3, st3).

(** The two first lines of [updateData]:
    [set = addr >> b & ((1 << s) - 1)] and [tag = addr >> (s + b)]. *)
Definition decode (addr : Z) : option (Z * Z) :=
  match shr_long addr b with
  | None => None
  | Some hi =>
      match shl_int 1 s with
      | None => None
      | Some one_s =>
          match shr_long addr (s + b) with
          | None => None
          | Some t => Some (Z.land hi (one_s - 1), t)
          end
      end
  end.

(** What the verbose mode prints for a record. *)
Inductive outcome : Type := Hit | Miss | MissEviction.

Definition updateData_set (set : list cacheLine) (t : Z) (operation : ascii)
    (st : csim_stats_t) : outcome * list cacheLine * csim_stats_t :=
  let '(miss, set1, st1) := isMiss set t operation st in
  if miss then
    let st2 := incr_misses st1 in
    let '(full, set2, st3) := updateCache set1 t operation st2 in
    if full then (MissEviction, set2, incr_evictions st3) else (Miss, set2, st3)
  else (Hit, set1, incr_hits st1).

(** [updateData]: [None] when the decoding is undefined or [cache[set]] is
    outside the allocation. *)
Definition updateData (addr : Z) (operation : ascii) (st : state)
    : option (outcome * state) :=
  match decode addr with
  | None => None
  | Some (set, t) =>
      match cache st !! Z.to_nat set with
      | None => None
      | Some row =>
          let '(o, row', stats') := updateData_set row t operation (stats st) in
          Some (o, mkState (<[Z.to_nat set := row']> (cache st)) stats')
      end
  end.

(** One turn of the loop of [main]: only ['L'] and ['S'] reach
    [updateData]. *)
Definition step (r : traceRecord) (st : state) : option state :=
  if is_load (rec_op r) || is_store (rec_op r)
  then match updateData (rec_addr r) (rec_op r) st with
       | Some (_, st') => Some st'
       | None => None
       end
  else Some st.

Fixpoint run (trace : list traceRecord) (st : state) : option state :=
  match trace with
  | [] => Some st
  | r :: rest =>
      match step r st with
      | Some st' => run rest st'
      | None => None
      end
  end.

(** States of a run: reached from the initial cache by some trace. *)
Definition reachable (st : state) : Prop :=
  exists junk trace, run trace (init_state junk) = Some st.

(** Number of records of a trace that are loads or stores. *)
Definition count_LS (trace : list traceRecord) : Z :=
  Z.of_nat (length (filter (fun r => is_load (rec_op r) || is_store (rec_op r) = true) trace)).

(** Bytes a line contributes to the dirty total. *)
Definition line_dirty_bytes (l : cacheLine) : Z :=
  if (valid l =? 1) && negb (dirty l =? 0) then blockSize else 0.
Definition set_dirty_bytes (set : list cacheLine) : Z := Zsum (line_dirty_bytes <$> set).
Definition cache_dirty_bytes (c : cache_t) : Z := Zsum (set_dirty_bytes <$> c).

(** Invariant of the lines and of the allocation. *)
Definition wf_line (l : cacheLine) : Prop :=
  (valid l = 0 \/ valid l = 1) /\ 0 <= lastUsed l.
Definition wf_set (set : list cacheLine) : Prop :=
  length set = Z.to_nat E /\ Forall wf_line set.
Definition wf_cache (c : cache_t) : Prop :=
  length c = Z.to_nat (2 ^ s) /\ Forall wf_set c.
Definition wf_state (st : state) : Prop :=
  wf_cache (cache st) /\
  dirty_bytes (stats st) = ulong (cache_dirty_bytes (cache st)).

End Simulator.

(** ** Vocabulary of the proofs *)

(** The set after an access to line [i] that leaves [new] there: every other
    line has aged by one. *)
Definition touch (set : list cacheLine) (i : nat) (new : cacheLine) : list cacheLine :=
  imap (fun j x => if decide (j = i) then new else set_lastUsed (lastUsed x + 1) x) set.

(** The line a hit leaves behind. *)
Definition hit_line (operation : ascii) (l : cacheLine) : cacheLine :=
  mkLine (valid l) (tag l)
         (if is_store operation && (dirty l =? 0) then 1 else dirty l) 0.

(** The line an install leaves behind, on either path. *)
Definition installed_line (operation : ascii) (t : Z) : cacheLine :=
  mkLine 1 t (if is_store operation then 1 else 0) 0.

(** The decoder as the specification words it, on the unsigned 64-bit
    address [a]: [tag = a >> (s+b)] as a logical shift and
    [setIndex = (a >> b) & ((1 << s) - 1)]. *)
Definition spec_tag (s b a : Z) : Z := Z.shiftr a (s + b).
Definition spec_setIndex (s b a : Z) : Z := Z.land (Z.shiftr a b) (Z.shiftl 1 s - 1).

(** ** parseArgument

    [getopt], [atoi] and [fopen] belong to the C library.  The loop of
    [parseArgument] is modelled over what they return: the successive
    results of [getopt] (the option character and [optarg]) until it gives
    -1, with [atoi] and [fopen] as parameters.  A [printf] is recorded as the
    message it prints. *)

Inductive message : Type :=
  | FileOpeningError      (* "File opening error.\n" *)
  | InvalidInput          (* "Invalid input.\n" *)
  | HelpMessage.          (* the six lines of printHelpMessage *)

(** The globals that [parseArgument] sets. *)
Record globals (F : Type) : Type := mkGlobals {
  g_s : Z;
  g_E : Z;
  g_b : Z;
  g_verbose : bool;
  g_traceFile : option F      (* NULL is None *)
}.
Arguments mkGlobals {F}.
Arguments g_s {F}.
Arguments g_E {F}.
Arguments g_b {F}.
Arguments g_verbose {F}.
Arguments g_traceFile {F}.

(** How a call ends: it returns, or [exit(status)] is called; both after
    having printed the messages. *)
Inductive ending (A : Type) : Type :=
  | Returns (a : A) (out : list message)
  | Exits (status : Z) (out : list message).
Arguments Returns {A}.
Arguments Exits {A}.

(** The globals before [parseArgument]: [s = E = b = -1], [verbose = false],
    [traceFile = NULL]. *)
Definition globals0 {F : Type} : globals F := mkGlobals (-1) (-1) (-1) false None.

(** [x + y] on [int]: undefined when the sum is not an [int]. *)
Definition add_int (x y : Z) : option Z :=
  if (- 2 ^ 31 <=? x + y) && (x + y <=? INT_MAX) then Some (x + y) else None.

Section ParseArgument.

Variable F : Type.                         (* FILE * that is not NULL *)
Variable atoi : list ascii -> Z.
Variable fopen : list ascii -> option F.   (* fopen(optarg, "r") *)

(** The [while] loop with its [switch]; [out] is what has been printed. *)
Fixpoint parseOptions (opts : list (ascii * list ascii)) (g : globals F)
    (out : list message) : ending (globals F) :=
  match opts with
  | [] => Returns g out
  | (opt, optarg) :: rest =>
      if Ascii.eqb opt "s"%char then
        parseOptions rest
          (mkGlobals (atoi optarg) (g_E g) (g_b g) (g_verbose g) (g_traceFile g)) out
      else if Ascii.eqb opt "E"%char then
        parseOptions rest
          (mkGlobals (g_s g) (atoi optarg) (g_b g) (g_verbose g) (g_traceFile g)) out
      else if Ascii.eqb opt "b"%char then
        parseOptions rest
          (mkGlobals (g_s g) (g_E g) (atoi optarg) (g_verbose g) (g_traceFile g)) out
      else if Ascii.eqb opt "t"%char then
        match fopen optarg with
        | None => Exits 1 (out ++ [FileOpeningError])
        | Some f =>
            parseOptions rest
              (mkGlobals (g_s g) (g_E g) (g_b g) (g_verbose g) (Some f)) out
        end
      else if Ascii.eqb opt "h"%char then Exits 0 (out ++ [HelpMessage])
      else if Ascii.eqb opt "v"%char then
        parseOptions rest
          (mkGlobals (g_s g) (g_E g) (g_b g) true (g_traceFile g)) out
      else Exits 1 (out ++ [InvalidInput; HelpMessage])
  end.

(** [parseArgument]: the loop, then the test
    [s < 0 || E <= 0 || b < 0 || s + b > 64].  [None] when [s + b] is
    evaluated and overflows. *)
Definition parseArgument (opts : list (ascii * list ascii))
    : option (ending (globals F)) :=
  match parseOptions opts globals0 [] with
  | Exits status out => Some (Exits status out)
  | Returns g out =>
      if (g_s g <? 0) || (g_E g <=? 0) || (g_b g <? 0)
      then Some (Exits 1 (out ++ [InvalidInput; HelpMessage]))
      else match add_int (g_s g) (g_b g) with
           | None => None
           | Some sb =>
               if sb >? 64 then Some (Exits 1 (out ++ [InvalidInput; HelpMessage]))
               else Some (Returns g out)
           end
  end.

End ParseArgument.

(** A stand-in for [atoi] on strings of decimal digits, to run
    [parseArgument] on. *)
Definition atoi_digits (digits : list ascii) : Z :=
  fold_left (fun acc d => 10 * acc + (Z.of_nat (nat_of_ascii d) - 48)) digits 0.

(** ** trans.c

    The matrices are arrays of rows, [double A[N][M]] the list of its [N]
    rows of [M] elements; the caller passes [A], [B] and [tmp] as three
    separate arrays.  An element is a [double]: its type is the parameter
    [D], and [dne] is [!=] on it (which holds between a NaN and itself).
    The functions are the ones compiled without [NDEBUG]: a failing [assert]
    aborts.  [TMPCOUNT] appears only in the declared type of the parameter
    [tmp]; its length is that of the list. *)

Inductive result (A : Type) : Type :=
  | Ok (a : A)
  | AssertFailed       (* abort() from assert *)
  | OutOfBounds.       (* an access outside an array *)
Arguments Ok {A}.
Arguments AssertFailed {A}.
Arguments OutOfBounds {A}.

Definition rbind {A B : Type} (r : result A) (k : A -> result B) : result B :=
  match r with
  | Ok a => k a
  | AssertFailed => AssertFailed
  | OutOfBounds => OutOfBounds
  end.

(** [for (k = start; k < start + len; k++) body]. *)
Fixpoint for_range {T : Type} (start len : nat) (body : nat -> T -> result T)
    (st : T) : result T :=
  match len with
  | O => Ok st
  | S len' => rbind (body start st) (for_range (S start) len' body)
  end.

Section Transpose.

Variable D : Type.
Variable dne : D -> D -> bool.

(** The element [X[i][j]], when there is one. *)
Definition at2 (X : list (list D)) (i j : nat) : option D :=
  match X !! i with
  | Some row => row !! j
  | None => None
  end.

Definition get1 (v : list D) (k : nat) : result D :=
  match v !! k with Some x => Ok x | None => OutOfBounds end.
Definition set1 (v : list D) (k : nat) (x : D) : result (list D) :=
  if decide (k < length v)%nat then Ok (<[k := x]> v) else OutOfBounds.
Definition get2 (X : list (list D)) (i j : nat) : result D :=
  match at2 X i j with Some x => Ok x | None => OutOfBounds end.
Definition set2 (X : list (list D)) (i j : nat) (x : D) : result (list (list D)) :=
  match X !! i with
  | Some row =>
      if decide (j < length row)%nat then Ok (<[i := <[j := x]> row]> X)
      else OutOfBounds
  | None => OutOfBounds
  end.

(** [is_transpose]: the inner loop from column [j], with its early
    [return false]. *)
Fixpoint is_transpose_row (A B : list (list D)) (i j len : nat) : result bool :=
  match len with
  | O => Ok true
  | S len' =>
      rbind (get2 A i j) (fun a =>
      rbind (get2 B j i) (fun b' =>
      if dne a b' then Ok false else is_transpose_row A B i (S j) len'))
  end.

Fixpoint is_transpose_rows (M : nat) (A B : list (list D)) (i len : nat) : result bool :=
  match len with
  | O => Ok true
  | S len' =>
      rbind (is_transpose_row A B i 0 M) (fun r =>
      if r then is_transpose_rows M A B (S i) len' else Ok false)
  end.

Definition is_transpose (M N : nat) (A B : list (list D)) : result bool :=
  is_transpose_rows M A B 0 N.

(** [trans_basic]; the result is [B] and [tmp] after the call. *)
Definition trans_basic (M N : nat) (A B : list (list D)) (tmp : list D)
    : result (list (list D) * list D) :=
  if (M =? 0)%nat then AssertFailed
  else if (N =? 0)%nat then AssertFailed
  else
    rbind (for_range 0 N (fun i B1 =>
             for_range 0 M (fun j B2 =>
               rbind (get2 A i j) (fun x => set2 B2 j i x)) B1) B)
          (fun B' =>
    rbind (is_transpose M N A B') (fun ok =>
    if ok then Ok (B', tmp) else AssertFailed)).

(** [trans_tmp]: each element goes through [tmp[2 * (i % 2) + j % 2]]. *)
Definition trans_tmp (M N : nat) (A B : list (list D)) (tmp : list D)
    : result (list (list D) * list D) :=
  if (M =? 0)%nat then AssertFailed
  else if (N =? 0)%nat then AssertFailed
  else
    rbind (for_range 0 N (fun i st1 =>
             for_range 0 M (fun j st2 =>
               let di := (i mod 2)%nat in
               let dj := (j mod 2)%nat in
               rbind (get2 A i j) (fun x =>
               rbind (set1 st2.2 (2 * di + dj) x) (fun tmp' =>
               rbind (get1 tmp' (2 * di + dj)) (fun y =>
               rbind (set2 st2.1 j i y) (fun B' => Ok (B', tmp')))))) st1) (B, tmp))
          (fun st' =>
    rbind (is_transpose M N A st'.1) (fun ok =>
    if ok then Ok st' else AssertFailed)).

Definition transpose_submit (M N : nat) (A B : list (list D)) (tmp : list D)
    : result (list (list D) * list D) :=
  if (M =? N)%nat then trans_basic M N A B tmp else trans_tmp M N A B tmp.

(** An array declared [double X[r][c]]. *)
Definition dims (r c : nat) (X : list (list D)) : Prop :=
  length X = r /\ Forall (fun row => length row = c) X.

End Transpose.

(** A small element type with a NaN, to run the functions on. *)
Inductive num : Type := Num (z : Z) | NaN.
Definition num_ne (x y : num) : bool :=
  match x, y with
  | Num a, Num b => negb (a =? b)
  | _, _ => true
  end.

(** ** More vocabulary for the simulator *)

(** No two valid lines of a set hold the same tag. *)
Definition unique_tags (set : list cacheLine) : Prop :=
  forall i j l1 l2,
    set !! i = Some l1 -> set !! j = Some l2 ->
    valid l1 = 1 -> valid l2 = 1 -> tag l1 = tag l2 -> i = j.

(** The recency counters after [n] accesses to a set: an invalid line holds
    [n], a valid line less, and no two valid lines the same value. *)
Definition recency_ok (n : Z) (set : list cacheLine) : Prop :=
  0 <= n /\
  (forall i l, set !! i = Some l ->
     (valid l = 0 -> lastUsed l = n) /\ (valid l = 1 -> 0 <= lastUsed l < n)) /\
  (forall i j l1 l2,
     set !! i = Some l1 -> set !! j = Some l2 ->
     valid l1 = 1 -> valid l2 = 1 -> lastUsed l1 = lastUsed l2 -> i = j).

(** A line with the content of its [tag] field forgotten while it is not
    valid. *)
Definition erase (l : cacheLine) : cacheLine :=
  if valid l =? 1 then l else mkLine (valid l) 0 (dirty l) (lastUsed l).
Definition erase_state (st : state) : state :=
  mkState ((fun row : list cacheLine => erase <$> row) <$> cache st) (stats st).

(** Number of valid lines of a set and of the cache. *)
Definition line_valid_count (l : cacheLine) : Z := if valid l =? 1 then 1 else 0.
Definition set_valid_lines (set : list cacheLine) : Z := Zsum (line_valid_count <$> set).
Definition valid_lines (c : cache_t) : Z := Zsum (set_valid_lines <$> c).

(** Every line of the cache is clean. *)
Definition all_clean (c : cache_t) : Prop :=
  Forall (Forall (fun l => dirty l = 0)) c.

(** A record with a store turned into a load of the same address. *)
Definition as_load (r : traceRecord) : traceRecord :=
  if is_store (rec_op r) then mkRecord "L"%char (rec_addr r) (rec_size r) else r.

(** A state with its write-back bookkeeping forgotten: every dirty flag and
    both dirty counters at 0. *)
Definition forget_dirty_stats (st : csim_stats_t) : csim_stats_t :=
  mkStats (hits st) (misses st) (evictions st) 0 0.
Definition forget_dirty (st : state) : state :=
  mkState ((fun row : list cacheLine => set_dirty 0 <$> row) <$> cache st)
          (forget_dirty_stats (stats st)).

(** The lines in use hold blocks of [blocks] only (pairs of a set index
    and a tag), one line per block. *)
Definition holds_only (blocks : list (Z * Z)) (c : cache_t) : Prop :=
  forall k row, c !! k = Some row ->
    unique_tags row /\
    forall i l, row !! i = Some l -> valid l = 1 -> (Z.of_nat k, tag l) ∈ blocks.

(** ** Concrete runs: the scenarios of the specification *)

Definition L (a : Z) : traceRecord := mkRecord "L"%char a 1.
Definition St (a : Z) : traceRecord := mkRecord "S"%char a 1.
Definition nojunk : nat -> nat -> Z := fun _ _ => 0.

Example scenario1 :
  stats <$> run 0 0 [L 0; L 0] (init_state 0 1 nojunk) = Some (mkStats 1 1 0 0 0).
Proof. reflexivity. Qed.

Example scenario2 :
  stats <$> run 1 0 [L 0; L 2; L 0] (init_state 1 1 nojunk) = Some (mkStats 0 3 2 0 0).
Proof. reflexivity. Qed.

Example scenario3 :
  stats <$> run 0 0 [St 0; St 0] (init_state 0 1 nojunk) = Some (mkStats 1 1 0 1 0).
Proof. reflexivity. Qed.

Example scenario4 :
  stats <$> run 0 4 [St 0; St 16] (init_state 0 1 nojunk) = Some (mkStats 0 2 1 16 16).
Proof. reflexivity. Qed.

(** ** Recency counters *)

Lemma updateLastUsed_lookup (set : list cacheLine) (i j : nat) :
  updateLastUsed set i !! j =
  (fun l => if decide (j = i) then set_lastUsed 0 l
            else set_lastUsed (lastUsed l + 1) l) <$> set !! j.
Proof.
  unfold updateLastUsed. rewrite list_lookup_imap.
  destruct (decide (j = i)) as [->|Hne].
  - rewrite list_lookup_alter_eq. by destruct (set !! i).
  - rewrite list_lookup_alter_ne by done. by destruct (set !! j).
Qed.

(** The scan over the first [n] indices keeps the first maximum so far. *)
Lemma scan_prefix (set : list cacheLine) (n : nat) :
  let m := fold_left
    (fun maxIndex i => if lastUsedAt set i >? lastUsedAt set maxIndex then i else maxIndex)
    (seq 0 n) 0%nat in
  (m < Nat.max 1 n)%nat /\
  (forall j, (j < n)%nat -> lastUsedAt set j <= lastUsedAt set m) /\
  (forall j, (j < m)%nat -> lastUsedAt set j < lastUsedAt set m).
Proof.
  induction n as [|n IH].
  - simpl. split; [lia|]. split; intros; lia.
  - rewrite seq_S, fold_left_app. cbn [fold_left Nat.add].
    set (m := fold_left _ (seq 0 n) 0%nat) in *. cbv zeta in IH.
    destruct IH as (Hm & Hle & Hlt). cbv zeta.
    destruct (Z.gtb_spec (lastUsedAt set n) (lastUsedAt set m)) as [Hgt|Hngt].
    + split; [lia|]. split.
      * intros j Hj. destruct (decide (j = n)) as [->|]; [lia|].
        specialize (Hle j ltac:(lia)). lia.
      * intros j Hj. specialize (Hle j ltac:(lia)). lia.
    + split; [lia|]. split; [|done].
      intros j Hj. destruct (decide (j = n)) as [->|]; [lia|].
      apply Hle. lia.
Qed.

(** The result of the scan over the whole set. *)
Lemma victim_spec (set : list cacheLine) :
  set <> [] ->
  (findLeastRecentlyUsed set < length set)%nat /\
  (forall j, (j < length set)%nat ->
     lastUsedAt set j <= lastUsedAt set (findLeastRecentlyUsed set)) /\
  (forall j, (j < findLeastRecentlyUsed set)%nat ->
     lastUsedAt set j < lastUsedAt set (findLeastRecentlyUsed set)).
Proof.
  intros Hne. pose proof (scan_prefix set (length set)) as H. cbv zeta in H.
  unfold findLeastRecentlyUsed. destruct H as (Hm & Hle & Hlt).
  split; [|done]. destruct set; [done|]. simpl in *. lia.
Qed.

(** ** The three paths of an access *)

Lemma touch_lookup (set : list cacheLine) (i j : nat) (new : cacheLine) :
  touch set i new !! j =
  (fun x => if decide (j = i) then new else set_lastUsed (lastUsed x + 1) x) <$> set !! j.
Proof. unfold touch. by rewrite list_lookup_imap. Qed.

Lemma length_touch (set : list cacheLine) (i : nat) (new : cacheLine) :
  length (touch set i new) = length set.
Proof. unfold touch. by rewrite length_imap. Qed.

Lemma alter_updateLastUsed_touch (set : list cacheLine) (i : nat) (l : cacheLine)
    (f : cacheLine -> cacheLine) :
  set !! i = Some l ->
  alter f i (updateLastUsed set i) = touch set i (f (set_lastUsed 0 l)).
Proof.
  intros Hi. apply list_eq. intros j. rewrite touch_lookup.
  destruct (decide (j = i)) as [->|Hne].
  - rewrite list_lookup_alter_eq, updateLastUsed_lookup, Hi. simpl.
    by rewrite decide_True.
  - rewrite list_lookup_alter_ne, updateLastUsed_lookup by done.
    destruct (set !! j); simpl; [|done]. by rewrite decide_False.
Qed.

Lemma updateLastUsed_touch (set : list cacheLine) (i : nat) (l : cacheLine) :
  set !! i = Some l ->
  updateLastUsed set i = touch set i (set_lastUsed 0 l).
Proof.
  intros Hi. pose proof (alter_updateLastUsed_touch set i l id Hi) as H.
  unfold id in H at 2. rewrite <- H. symmetry. by apply list_alter_id.
Qed.

Lemma touch_alter (set : list cacheLine) (i : nat) (new : cacheLine)
    (f : cacheLine -> cacheLine) :
  (forall x, lastUsed (f x) = lastUsed x) ->
  touch (alter f i set) i new = touch set i new.
Proof.
  intros Hf. apply list_eq. intros j. rewrite !touch_lookup.
  destruct (decide (j = i)) as [->|Hne].
  - rewrite list_lookup_alter_eq. by destruct (set !! i).
  - by rewrite list_lookup_alter_ne.
Qed.

Lemma alter_touch (set : list cacheLine) (i : nat) (new : cacheLine)
    (f : cacheLine -> cacheLine) :
  alter f i (touch set i new) = touch set i (f new).
Proof.
  apply list_eq. intros j. rewrite touch_lookup.
  destruct (decide (j = i)) as [->|Hne].
  - rewrite list_lookup_alter_eq, touch_lookup. destruct (set !! i); simpl; [|done].
    by rewrite decide_True.
  - rewrite list_lookup_alter_ne, touch_lookup by done.
    destruct (set !! j); simpl; [|done]. by rewrite decide_False.
Qed.

Section Paths.

Variables (s E b : Z).

Lemma isMiss_hit (set : list cacheLine) (t : Z) (operation : ascii)
    (st : csim_stats_t) (i : nat) (l : cacheLine) :
  list_find (line_hit t) set = Some (i, l) ->
  isMiss b set t operation st =
  (false, touch set i (hit_line operation l),
   if is_store operation && (dirty l =? 0) then add_dirty_bytes b st else st).
Proof.
  intros Hfind. unfold isMiss. rewrite Hfind.
  apply list_find_Some in Hfind as (Hi & _ & _).
  assert (dirtyAt (updateLastUsed set i) i = dirty l) as ->.
  { unfold dirtyAt. rewrite updateLastUsed_lookup, Hi. simpl. by case_decide. }
  unfold hit_line. destruct (is_store operation && (dirty l =? 0)).
  - by rewrite (alter_updateLastUsed_touch set i l).
  - by rewrite (updateLastUsed_touch set i l).
Qed.

Lemma isMiss_miss (set : list cacheLine) (t : Z) (operation : ascii)
    (st : csim_stats_t) :
  list_find (line_hit t) set = None ->
  isMiss b set t operation st = (true, set, st).
Proof. intros Hfind. unfold isMiss. by rewrite Hfind. Qed.

Lemma installFree_free (set : list cacheLine) (t : Z) (i : nat) (l : cacheLine) :
  list_find line_free set = Some (i, l) ->
  installFree set t = (false, i, touch set i (mkLine 1 t 0 0)).
Proof.
  intros Hfind. unfold installFree. rewrite Hfind.
  apply list_find_Some in Hfind as (Hi & _ & _).
  rewrite (updateLastUsed_touch _ i (set_dirty 0 (set_valid_tag 1 t l))).
  - by rewrite touch_alter.
  - by rewrite list_lookup_alter_eq, Hi.
Qed.

Lemma installFree_full (set : list cacheLine) (t : Z) :
  list_find line_free set = None ->
  installFree set t = (true, length set, set).
Proof. intros Hfind. unfold installFree. by rewrite Hfind. Qed.

Lemma evictLine_victim (set : list cacheLine) (t : Z) (st : csim_stats_t)
    (l : cacheLine) :
  set !! findLeastRecentlyUsed set = Some l ->
  evictLine b set t st =
  (findLeastRecentlyUsed set,
   touch set (findLeastRecentlyUsed set) (mkLine 1 t 0 0),
   if dirty l =? 0 then st else sub_dirty_bytes b (add_dirty_evictions b st)).
Proof.
  intros Hv. unfold evictLine.
  set (v := findLeastRecentlyUsed set) in *.
  assert (dirtyAt (alter (set_valid_tag 1 t) v set) v = dirty l) as ->.
  { unfold dirtyAt. by rewrite list_lookup_alter_eq, Hv. }
  destruct (Z.eqb_spec (dirty l) 0) as [Hd|Hd].
  - rewrite (updateLastUsed_touch _ v (set_valid_tag 1 t l)).
    + rewrite touch_alter by done. unfold set_lastUsed. simpl. by rewrite Hd.
    + by rewrite list_lookup_alter_eq, Hv.
  - rewrite (updateLastUsed_touch _ v (set_dirty 0 (set_valid_tag 1 t l))).
    + by rewrite !touch_alter.
    + by rewrite !list_lookup_alter_eq, Hv.
Qed.

Lemma markStore_touch (set : list cacheLine) (i : nat) (t : Z) (operation : ascii)
    (st : csim_stats_t) :
  markStore b (touch set i (mkLine 1 t 0 0)) i operation st =
  (touch set i (installed_line operation t),
   if is_store operation then add_dirty_bytes b st else st).
Proof.
  unfold markStore, installed_line. destruct (is_store operation); [|done].
  by rewrite alter_touch.
Qed.

(** A hit. *)
Lemma updateData_set_hit (set : list cacheLine) (t : Z) (operation : ascii)
    (st : csim_stats_t) (i : nat) (l : cacheLine) :
  list_find (line_hit t) set = Some (i, l) ->
  updateData_set b set t operation st =
  (Hit, touch set i (hit_line operation l),
   incr_hits (if is_store operation && (dirty l =? 0)
              then add_dirty_bytes b st else st)).
Proof. intros Hfind. unfold updateData_set. by rewrite (isMiss_hit _ _ _ _ i l). Qed.

(** A miss with a free line. *)
Lemma updateData_set_free (set : list cacheLine) (t : Z) (operation : ascii)
    (st : csim_stats_t) (i : nat) (l : cacheLine) :
  list_find (line_hit t) set = None ->
  list_find line_free set = Some (i, l) ->
  updateData_set b set t operation st =
  (Miss, touch set i (installed_line operation t),
   if is_store operation then add_dirty_bytes b (incr_misses st) else incr_misses st).
Proof.
  intros Hmiss Hfree. unfold updateData_set, updateCache.
  rewrite isMiss_miss by done. rewrite (installFree_free _ _ i l) by done.
  by rewrite markStore_touch.
Qed.

(** A miss in a full set. *)
Lemma updateData_set_full (set : list cacheLine) (t : Z) (operation : ascii)
    (st : csim_stats_t) (l : cacheLine) :
  list_find (line_hit t) set = None ->
  list_find line_free set = None ->
  set !! findLeastRecentlyUsed set = Some l ->
  updateData_set b set t operation st =
  (MissEviction, touch set (findLeastRecentlyUsed set) (installed_line operation t),
   incr_evictions
     (let st1 := if dirty l =? 0 then incr_misses st
                 else sub_dirty_bytes b (add_dirty_evictions b (incr_misses st)) in
      if is_store operation then add_dirty_bytes b st1 else st1)).
Proof.
  intros Hmiss Hfree Hv. unfold updateData_set, updateCache.
  rewrite isMiss_miss by done. rewrite installFree_full by done.
  rewrite (evictLine_victim _ _ _ l) by done.
  by rewrite markStore_touch.
Qed.

End Paths.

(** ** Address decoding *)

Section Decoder.

Variables (s E b : Z).

Lemma shl_int_one (n : Z) : 0 <= n <= 30 -> shl_int 1 n = Some (2 ^ n).
Proof.
  intros Hn. unfold shl_int, INT_MAX. rewrite Z.shiftl_1_l.
  assert (2 ^ n <= 2 ^ 30) by (apply Z.pow_le_mono_r; lia).
  rewrite !andb_true_intro; [done|].
  repeat split; try apply andb_true_intro; repeat split; lia.
Qed.

Lemma decode_defined (addr : Z) :
  defined_geometry s E b ->
  decode s b addr =
  Some (Z.land (Z.shiftr addr b) (2 ^ s - 1), Z.shiftr addr (s + b)).
Proof.
  intros (Hs & HE & Hb & Hsb). unfold decode, shr_long.
  rewrite shl_int_one by done.
  assert ((0 <=? b) && (b <? 64) = true) as -> by lia.
  assert ((0 <=? s + b) && (s + b <? 64) = true) as -> by lia.
  done.
Qed.

Lemma set_index_range (x : Z) : 0 <= s -> 0 <= Z.land x (2 ^ s - 1) < 2 ^ s.
Proof.
  intros Hs. replace (2 ^ s - 1) with (Z.ones s) by (rewrite Z.ones_equiv; lia).
  rewrite Z.land_ones by done. apply Z.mod_pos_bound. lia.
Qed.

End Decoder.

(** ** Dirty bytes as a sum over the lines *)

Lemma Zsum_insert (l : list Z) (i : nat) (x y : Z) :
  l !! i = Some x -> Zsum (<[i:=y]> l) = Zsum l - x + y.
Proof.
  revert i. induction l as [|a l IH]; intros [|i] Hi; simpl in *; try done.
  - injection Hi as ->. lia.
  - rewrite (IH i Hi). lia.
Qed.

Lemma Zsum_bounds (l : list Z) (B : Z) :
  Forall (fun x => 0 <= x <= B) l -> 0 <= Zsum l <= Z.of_nat (length l) * B.
Proof.
  induction 1 as [|x l Hx _ IH]; [simpl; lia|].
  rewrite length_cons, Nat2Z.inj_succ.
  change (Zsum (x :: l)) with (x + Zsum l). lia.
Qed.

Lemma ulong_range (x : Z) : 0 <= ulong x < 2 ^ 64.
Proof. unfold ulong. apply Z.mod_pos_bound. lia. Qed.

Lemma ulong_le (x : Z) : 0 <= x -> ulong x <= x.
Proof. intros Hx. unfold ulong. apply Z.mod_le; lia. Qed.

Lemma ulong_small (x : Z) : 0 <= x < 2 ^ 64 -> ulong x = x.
Proof. intros Hx. unfold ulong. by apply Z.mod_small. Qed.

Lemma ulong_add_l (x y : Z) : ulong (ulong x + y) = ulong (x + y).
Proof. unfold ulong. by rewrite Zplus_mod_idemp_l. Qed.

Lemma ulong_sub_l (x y : Z) : ulong (ulong x - y) = ulong (x - y).
Proof. unfold ulong. by rewrite Zminus_mod_idemp_l. Qed.

Section Invariant.

Variables (s E b : Z).

Lemma line_dirty_bytes_range (l : cacheLine) :
  0 <= b -> 0 <= line_dirty_bytes b l <= blockSize b.
Proof.
  intros Hb. unfold line_dirty_bytes, blockSize.
  assert (0 < 2 ^ b) by (apply Z.pow_pos_nonneg; lia).
  destruct (_ && _); lia.
Qed.

Lemma set_dirty_bytes_touch (set : list cacheLine) (i : nat) (l new : cacheLine) :
  set !! i = Some l ->
  set_dirty_bytes b (touch set i new) =
  set_dirty_bytes b set - line_dirty_bytes b l + line_dirty_bytes b new.
Proof.
  intros Hi. unfold set_dirty_bytes.
  rewrite <- (Zsum_insert (line_dirty_bytes b <$> set) i (line_dirty_bytes b l))
    by (by rewrite list_lookup_fmap, Hi).
  f_equal. apply list_eq. intros j.
  rewrite list_lookup_fmap, touch_lookup.
  destruct (decide (j = i)) as [->|Hne].
  - rewrite list_lookup_insert_eq, Hi; [done|].
    rewrite length_fmap. by eapply lookup_lt_Some.
  - rewrite list_lookup_insert_ne, list_lookup_fmap by done.
    by destruct (set !! j).
Qed.

Lemma cache_dirty_bytes_insert (c : cache_t) (k : nat) (row row' : list cacheLine) :
  c !! k = Some row ->
  cache_dirty_bytes b (<[k:=row']> c) =
  cache_dirty_bytes b c - set_dirty_bytes b row + set_dirty_bytes b row'.
Proof.
  intros Hk. unfold cache_dirty_bytes. rewrite list_fmap_insert.
  apply Zsum_insert. by rewrite list_lookup_fmap, Hk.
Qed.

Lemma set_dirty_bytes_range (set : list cacheLine) :
  0 <= b -> 0 <= set_dirty_bytes b set <= Z.of_nat (length set) * blockSize b.
Proof.
  intros Hb. unfold set_dirty_bytes.
  rewrite <- (length_fmap (line_dirty_bytes b)). apply Zsum_bounds.
  apply Forall_fmap, Forall_forall. intros l _. by apply line_dirty_bytes_range.
Qed.

Lemma cache_dirty_bytes_range (c : cache_t) :
  0 <= b -> 1 <= E -> 0 <= s -> wf_cache s E c ->
  0 <= cache_dirty_bytes b c <= E * 2 ^ s * 2 ^ b.
Proof.
  intros Hb HE Hs (Hlen & Hsets). unfold cache_dirty_bytes.
  assert (0 < 2 ^ b) by (apply Z.pow_pos_nonneg; lia).
  assert (0 < 2 ^ s) by (apply Z.pow_pos_nonneg; lia).
  pose proof (Zsum_bounds (set_dirty_bytes b <$> c) (E * 2 ^ b)) as HB.
  rewrite length_fmap, Hlen, Z2Nat.id in HB by lia.
  replace (E * 2 ^ s * 2 ^ b) with (2 ^ s * (E * 2 ^ b)) by lia.
  apply HB. apply Forall_fmap. eapply Forall_impl; [|exact Hsets].
  intros row (Hrow & _). simpl.
  pose proof (set_dirty_bytes_range row Hb) as Hr.
  rewrite Hrow, Z2Nat.id in Hr by lia. done.
Qed.

Lemma wf_set_touch (set : list cacheLine) (i : nat) (new : cacheLine) :
  wf_set E set -> wf_line new -> wf_set E (touch set i new).
Proof.
  intros (Hlen & Hall) Hnew. split; [by rewrite length_touch|].
  apply Forall_lookup. intros j x. rewrite touch_lookup.
  destruct (set !! j) as [y|] eqn:Hj; simpl; [|done].
  intros [= <-]. case_decide; [done|].
  rewrite Forall_lookup in Hall. destruct (Hall j y Hj) as (Hv & Hlu).
  split; simpl; [done|lia].
Qed.

Lemma wf_line_installed (operation : ascii) (t : Z) :
  wf_line (installed_line operation t).
Proof. split; simpl; [by right|lia]. Qed.

Lemma wf_line_hit (operation : ascii) (l : cacheLine) :
  wf_line l -> wf_line (hit_line operation l).
Proof. intros (Hv & _). split; simpl; [done|lia]. Qed.

End Invariant.

(** ** One access preserves the invariant *)

Lemma access_cases (set : list cacheLine) (t : Z) :
  set <> [] ->
  (exists i l, list_find (line_hit t) set = Some (i, l)) \/
  (list_find (line_hit t) set = None /\
   exists i l, list_find line_free set = Some (i, l)) \/
  (list_find (line_hit t) set = None /\ list_find line_free set = None /\
   exists l, set !! findLeastRecentlyUsed set = Some l).
Proof.
  intros Hne.
  destruct (list_find (line_hit t) set) as [[i l]|] eqn:Hhit; [left; eauto|].
  right. destruct (list_find line_free set) as [[i l]|] eqn:Hfree; [left; eauto|].
  right. repeat split; try done.
  apply lookup_lt_is_Some_2. by apply victim_spec.
Qed.

Section Steps.

Variables (s E b : Z).

Ltac ulong_norm :=
  rewrite ?ulong_sub_l, ?ulong_add_l; f_equal; lia.

Lemma updateData_set_inv (set : list cacheLine) (t : Z) (operation : ascii)
    (st : csim_stats_t) (D : Z) :
  wf_set E set -> set <> [] -> dirty_bytes st = ulong D ->
  wf_set E (updateData_set b set t operation st).1.2 /\
  dirty_bytes (updateData_set b set t operation st).2 =
    ulong (D - set_dirty_bytes b set
             + set_dirty_bytes b (updateData_set b set t operation st).1.2).
Proof.
  intros Hwf Hne HD. pose proof Hwf as (_ & Hall). rewrite Forall_lookup in Hall.
  destruct (access_cases set t Hne)
    as [(i & l & Hhit)|[(Hmiss & i & l & Hfree)|(Hmiss & Hfull & l & Hv)]].
  - rewrite (updateData_set_hit b _ _ _ _ i l Hhit). simpl.
    apply list_find_Some in Hhit as (Hi & (Hval & _) & _).
    split; [apply wf_set_touch; [done|]; apply wf_line_hit; eauto|].
    rewrite (set_dirty_bytes_touch b set i l) by done.
    unfold line_dirty_bytes, hit_line. simpl. rewrite Hval. simpl.
    destruct (is_store operation); simpl;
      destruct (dirty l =? 0) eqn:Hd; simpl; rewrite ?Hd; simpl;
      rewrite ?HD; ulong_norm.
  - rewrite (updateData_set_free b _ _ _ _ i l Hmiss Hfree). simpl.
    apply list_find_Some in Hfree as (Hi & Hval & _). unfold line_free in Hval.
    split; [apply wf_set_touch; [done|]; apply wf_line_installed|].
    rewrite (set_dirty_bytes_touch b set i l) by done.
    unfold line_dirty_bytes, installed_line. simpl. rewrite Hval. simpl.
    destruct (is_store operation); simpl; rewrite ?HD; ulong_norm.
  - rewrite (updateData_set_full b _ _ _ _ l Hmiss Hfull Hv). simpl.
    split; [apply wf_set_touch; [done|]; apply wf_line_installed|].
    rewrite (set_dirty_bytes_touch b set _ l) by done.
    assert (valid l = 1) as Hval.
    { destruct (Hall _ _ Hv) as ([H0|H1] & _); [|done].
      rewrite list_find_None, Forall_lookup in Hfull. by destruct (Hfull _ _ Hv). }
    unfold line_dirty_bytes, installed_line. simpl. rewrite Hval. simpl.
    destruct (is_store operation); simpl;
      destruct (dirty l =? 0) eqn:Hd; simpl; rewrite ?Hd; simpl;
      rewrite ?HD; ulong_norm.
Qed.

Lemma decode_row (c : cache_t) (addr : Z) :
  defined_geometry s E b -> wf_cache s E c ->
  exists set t row,
    decode s b addr = Some (set, t) /\ c !! Z.to_nat set = Some row /\
    wf_set E row /\ row <> [].
Proof.
  intros Hg (Hlen & Hsets). pose proof Hg as (Hs & HE & Hb & Hsb).
  rewrite (decode_defined s E b addr Hg).
  pose proof (set_index_range s (Z.shiftr addr b) ltac:(lia)) as Hr.
  set (k := Z.land _ _) in *.
  destruct (lookup_lt_is_Some_2 c (Z.to_nat k)) as [row Hrow].
  { rewrite Hlen. lia. }
  rewrite Forall_lookup in Hsets. pose proof (Hsets _ _ Hrow) as Hw.
  exists k, (Z.shiftr addr (s + b)), row.
  split; [done|]. split; [done|]. split; [done|].
  destruct Hw as (Hl & _). intros ->. simpl in Hl. lia.
Qed.

Lemma updateData_unfold (st : state) (addr : Z) (operation : ascii)
    (set t : Z) (row : list cacheLine) :
  decode s b addr = Some (set, t) -> cache st !! Z.to_nat set = Some row ->
  updateData s b addr operation st =
  Some ((updateData_set b row t operation (stats st)).1.1,
        mkState (<[Z.to_nat set := (updateData_set b row t operation (stats st)).1.2]>
                   (cache st))
                (updateData_set b row t operation (stats st)).2).
Proof.
  intros Hd Hrow. unfold updateData. rewrite Hd, Hrow.
  by destruct (updateData_set _ _ _ _ _) as [[o row'] st'].
Qed.

Lemma updateData_wf (st : state) (addr : Z) (operation : ascii) :
  defined_geometry s E b -> wf_state s E b st ->
  exists o st', updateData s b addr operation st = Some (o, st') /\
                wf_state s E b st'.
Proof.
  intros Hg ((Hlen & Hsets) & Hdb).
  destruct (decode_row (cache st) addr Hg (conj Hlen Hsets))
    as (set & t & row & Hd & Hrow & Hwf & Hne).
  rewrite (updateData_unfold st addr operation set t row Hd Hrow).
  destruct (updateData_set_inv row t operation (stats st) _ Hwf Hne Hdb) as (Hwf' & Hdb').
  eexists _, _. split; [done|]. split; simpl.
  - split; [by rewrite length_insert|]. by apply Forall_insert.
  - rewrite Hdb'. f_equal. rewrite (cache_dirty_bytes_insert b _ _ row) by done. lia.
Qed.

Lemma step_wf (r : traceRecord) (st : state) :
  defined_geometry s E b -> wf_state s E b st ->
  exists st', step s b r st = Some st' /\ wf_state s E b st'.
Proof.
  intros Hg Hwf. unfold step. destruct (_ || _); [|eauto].
  destruct (updateData_wf st (rec_addr r) (rec_op r) Hg Hwf) as (o & st' & -> & Hwf').
  eauto.
Qed.

Lemma run_wf (trace : list traceRecord) (st : state) :
  defined_geometry s E b -> wf_state s E b st ->
  exists st', run s b trace st = Some st' /\ wf_state s E b st'.
Proof.
  intros Hg. revert st. induction trace as [|r rest IH]; intros st Hwf; simpl.
  - eauto.
  - destruct (step_wf r st Hg Hwf) as (st1 & -> & Hwf1). by apply IH.
Qed.

Lemma Zsum_cons (x : Z) (l : list Z) : Zsum (x :: l) = x + Zsum l.
Proof. done. Qed.

Lemma set_dirty_bytes_invalid (row : list cacheLine) :
  Forall (fun l => valid l = 0) row -> set_dirty_bytes b row = 0.
Proof.
  unfold set_dirty_bytes. induction 1 as [|l row Hl _ IH]; [done|].
  rewrite fmap_cons, Zsum_cons, IH. unfold line_dirty_bytes. by rewrite Hl.
Qed.

Lemma cache_dirty_bytes_invalid (c : cache_t) :
  Forall (Forall (fun l => valid l = 0)) c -> cache_dirty_bytes b c = 0.
Proof.
  unfold cache_dirty_bytes. induction 1 as [|row c Hrow _ IH]; [done|].
  by rewrite fmap_cons, Zsum_cons, IH, set_dirty_bytes_invalid.
Qed.

Lemma init_wf (junk : nat -> nat -> Z) :
  defined_geometry s E b -> wf_state s E b (init_state s E junk).
Proof.
  intros (Hs & HE & Hb & Hsb). unfold init_state, init. split; simpl.
  - split; [by rewrite length_map, length_seq|].
    apply Forall_forall. intros row [i [<- _]]%in_map_iff.
    split; [by rewrite length_map, length_seq|].
    apply Forall_forall. intros l [j [<- _]]%in_map_iff.
    split; simpl; [by left|lia].
  - rewrite cache_dirty_bytes_invalid; [done|].
    apply Forall_forall. intros row [i [<- _]]%in_map_iff.
    apply Forall_forall. by intros l [j [<- _]]%in_map_iff.
Qed.

Lemma reachable_wf (st : state) :
  defined_geometry s E b -> reachable s E b st -> wf_state s E b st.
Proof.
  intros Hg (junk & trace & Hrun).
  destruct (run_wf trace _ Hg (init_wf junk Hg)) as (st' & Hrun' & Hwf).
  congruence.
Qed.

End Steps.

(** Whatever the path, the set after an access is the set before it with one
    line replaced by a valid line holding the requested tag, fresh, and every
    other line aged. *)
Lemma updateData_set_touch (b : Z) (set : list cacheLine) (t : Z)
    (operation : ascii) (st : csim_stats_t) :
  set <> [] ->
  exists i new,
    (i < length set)%nat /\
    (updateData_set b set t operation st).1.2 = touch set i new /\
    valid new = 1 /\ tag new = t /\ lastUsed new = 0.
Proof.
  intros Hne.
  destruct (access_cases set t Hne)
    as [(i & l & Hhit)|[(Hmiss & i & l & Hfree)|(Hmiss & Hfull & l & Hv)]].
  - rewrite (updateData_set_hit b _ _ _ _ i l Hhit).
    apply list_find_Some in Hhit as (Hi & (Hval & Htag) & _).
    exists i, (hit_line operation l). split; [by eapply lookup_lt_Some|done].
  - rewrite (updateData_set_free b _ _ _ _ i l Hmiss Hfree).
    apply list_find_Some in Hfree as (Hi & _).
    exists i, (installed_line operation t). split; [by eapply lookup_lt_Some|done].
  - rewrite (updateData_set_full b _ _ _ _ l Hmiss Hfull Hv).
    exists (findLeastRecentlyUsed set), (installed_line operation t).
    split; [by eapply lookup_lt_Some|done].
Qed.

(** A line that is valid stays valid through an access to its set. *)
Lemma updateData_set_valid (b : Z) (set : list cacheLine) (t : Z)
    (operation : ascii) (st : csim_stats_t) (j : nat) (l : cacheLine) :
  set !! j = Some l -> valid l = 1 ->
  exists l', (updateData_set b set t operation st).1.2 !! j = Some l' /\ valid l' = 1.
Proof.
  intros Hj Hval.
  destruct (updateData_set_touch b set t operation st) as (i & new & _ & -> & Hn & _).
  { by intros ->. }
  rewrite touch_lookup, Hj. simpl. case_decide; eauto.
Qed.

Lemma updateData_inv (s b : Z) (st : state) (addr : Z) (operation : ascii)
    (o : outcome) (st' : state) :
  updateData s b addr operation st = Some (o, st') ->
  exists set t row,
    decode s b addr = Some (set, t) /\ cache st !! Z.to_nat set = Some row /\
    o = (updateData_set b row t operation (stats st)).1.1 /\
    cache st' = <[Z.to_nat set := (updateData_set b row t operation (stats st)).1.2]> (cache st) /\
    stats st' = (updateData_set b row t operation (stats st)).2.
Proof.
  unfold updateData. destruct (decode s b addr) as [[set t]|]; [|done].
  destruct (cache st !! Z.to_nat set) as [row|] eqn:Hrow; [|done].
  destruct (updateData_set _ _ _ _ _) as [[o' row'] st1] eqn:Hu. intros [= <- <-].
  exists set, t, row. by rewrite Hu.
Qed.

Lemma step_valid (s b : Z) (r : traceRecord) (st st' : state)
    (k j : nat) (row : list cacheLine) (l : cacheLine) :
  step s b r st = Some st' ->
  cache st !! k = Some row -> row !! j = Some l -> valid l = 1 ->
  exists row' l', cache st' !! k = Some row' /\ row' !! j = Some l' /\ valid l' = 1.
Proof.
  unfold step. destruct (_ || _); [|intros [= <-]; eauto].
  destruct (updateData _ _ _ _ _) as [[o st1]|] eqn:Hu; [|done]. intros [= <-].
  apply updateData_inv in Hu as (set & t & row0 & _ & Hrow0 & _ & -> & _).
  intros Hk Hj Hval. destruct (decide (k = Z.to_nat set)) as [->|Hne].
  - assert (row0 = row) as -> by congruence.
    destruct (updateData_set_valid b row t (rec_op r) (stats st) j l Hj Hval)
      as (l' & Hl' & Hv').
    eexists _, l'. split; [|done].
    apply list_lookup_insert_eq. by eapply lookup_lt_Some.
  - exists row, l. by rewrite list_lookup_insert_ne.
Qed.

(** * The claims *)





(** C2, as the code has it.  On a hit (line [i] is the first valid line
    holding the tag) the only dirty state that can change is that of line
    [i], and only on a store to a clean line: the line then becomes dirty and
    [dirty_bytes] becomes [(dirty_bytes + 2^b) mod 2^64] (the counter is an
    [unsigned long]), once; that is an increase by exactly [2^b] whenever
    [dirty_bytes + 2^b < 2^64].  A store to a line that is already dirty, and
    any other operation, leave the dirty flag of every line and [dirty_bytes]
    as they were; [dirty_evictions] never moves on a hit. *)
Theorem hit_dirty_accounting (s b : Z) (st : state) (addr : Z) (operation : ascii)
    (set t : Z) (row : list cacheLine) (i : nat) (l : cacheLine) :
  decode s b addr = Some (set, t) ->
  cache st !! Z.to_nat set = Some row ->
  row !! i = Some l ->
  line_hit t l ->
  (forall j l0, (j < i)%nat -> row !! j = Some l0 -> ~ line_hit t l0) ->
  exists st' row' l',
    updateData s b addr operation st = Some (Hit, st') /\
    cache st' !! Z.to_nat set = Some row' /\
    row' !! i = Some l' /\
    valid l' = 1 /\ tag l' = t /\
    (forall j l0, j <> i -> row !! j = Some l0 ->
       exists l1, row' !! j = Some l1 /\ dirty l1 = dirty l0) /\
    dirty_evictions (stats st') = dirty_evictions (stats st) /\
    (is_store operation = true -> dirty l = 0 ->
       dirty l' = 1 /\
       dirty_bytes (stats st') = ulong (dirty_bytes (stats st) + 2 ^ b) /\
       (0 <= dirty_bytes (stats st) -> dirty_bytes (stats st) + 2 ^ b < 2 ^ 64 ->
        dirty_bytes (stats st') = dirty_bytes (stats st) + 2 ^ b)) /\
    (is_store operation = true -> dirty l <> 0 ->
       dirty l' = dirty l /\ dirty_bytes (stats st') = dirty_bytes (stats st)) /\
    (is_store operation = false ->
       dirty l' = dirty l /\ dirty_bytes (stats st') = dirty_bytes (stats st)).
Proof.
  intros Hd Hrow Hi Hhit Hfirst.
  assert (list_find (line_hit t) row = Some (i, l)) as Hfind.
  { apply list_find_Some. split; [done|]. split; [done|].
    intros j l0 Hj Hlt. by apply (Hfirst j l0). }
  exists (mkState (<[Z.to_nat set := touch row i (hit_line operation l)]> (cache st))
                  (incr_hits (if is_store operation && (dirty l =? 0)
                              then add_dirty_bytes b (stats st) else stats st))),
         (touch row i (hit_line operation l)), (hit_line operation l).
  rewrite (updateData_unfold s b st addr operation set t row Hd Hrow).
  rewrite (updateData_set_hit b row t operation (stats st) i l Hfind). simpl.
  destruct Hhit as (Hval & Htag).
  split; [done|]. split.
  { apply list_lookup_insert_eq. by eapply lookup_lt_Some. }
  split.
  { rewrite touch_lookup, Hi. simpl. by case_decide. }
  split; [done|]. split; [done|]. split.
  { intros j l0 Hj Hl0. rewrite touch_lookup, Hl0. simpl.
    case_decide; [done|]. by eexists. }
  split; [by destruct (_ && _)|].
  split; [|split].
  - intros -> Hz. apply Z.eqb_eq in Hz. rewrite Hz. simpl. unfold blockSize.
    split; [done|]. split; [done|]. intros Hlo Hhi. apply ulong_small.
    pose proof (Z.pow_nonneg 2 b). lia.
  - intros -> Hnz. apply Z.eqb_neq in Hnz. by rewrite Hnz.
  - by intros ->.
Qed.

Lemma hit_dirty_accounting_witness :
  let st0 := mkState [[mkLine 1 5 0 3; mkLine 1 0 1 0]] (mkStats 4 2 0 16 0) in
  exists st',
    updateData 0 4 80 "S"%char st0 = Some (Hit, st') /\
    cache st' = [[mkLine 1 5 1 0; mkLine 1 0 1 1]] /\
    stats st' = mkStats 5 2 0 32 0.
Proof.
  intros st0.
  destruct (hit_dirty_accounting 0 4 st0 80 "S"%char 0 5
              [mkLine 1 5 0 3; mkLine 1 0 1 0] 0%nat (mkLine 1 5 0 3))
    as (st' & row' & l' & Hu & _).
  - reflexivity.
  - reflexivity.
  - reflexivity.
  - split; reflexivity.
  - intros j l0 Hj. lia.
  - exists st'. split; [exact Hu|].
    vm_compute in Hu. injection Hu as <-. split; reflexivity.
Defined.

(** C2, as stated, fails when the counter wraps.  With [s = 0], [E = 2],
    [b = 63], after a load of address 0 and a store to address -1 the set
    holds a clean line and a dirty one and [dirty_bytes] is [2^63]; a store to
    address 0 then hits the clean line, marks it dirty, and leaves
    [dirty_bytes] at 0, not [2^63] larger. *)
Lemma store_hit_wraps_dirty_bytes :
  defined_geometry 0 2 63 /\
  exists st st',
    run 0 63 [L 0; St (-1)] (init_state 0 2 nojunk) = Some st /\
    cache st = [[mkLine 1 0 0 1; mkLine 1 (-1) 1 0]] /\
    dirty_bytes (stats st) = 2 ^ 63 /\
    updateData 0 63 0 "S"%char st = Some (Hit, st') /\
    cache st' = [[mkLine 1 0 1 0; mkLine 1 (-1) 1 1]] /\
    dirty_bytes (stats st') = 0 /\
    dirty_bytes (stats st') <> dirty_bytes (stats st) + 2 ^ 63.
Proof.
  split; [unfold defined_geometry; lia|].
  eexists _, _. split; [vm_compute; reflexivity|]. simpl.
  split; [reflexivity|]. split; [reflexivity|].
  split; [vm_compute; reflexivity|]. simpl.
  split; [reflexivity|]. split; [reflexivity|]. vm_compute. discriminate.
Qed.

(** C3. On every non-empty set, hence on every full set, the victim returned
    by the left-to-right scan of [findLeastRecentlyUsed] is a line of the
    set whose [lastUsed] is maximal, and no line with that maximal value is
    stored before it: ties go to the lowest storage index. *)
Theorem findLeastRecentlyUsed_first_max (set : list cacheLine) :
  set <> [] ->
  (findLeastRecentlyUsed set < length set)%nat /\
  (forall j, (j < length set)%nat ->
     lastUsedAt set j <= lastUsedAt set (findLeastRecentlyUsed set)) /\
  (forall j, (j < length set)%nat ->
     lastUsedAt set j = lastUsedAt set (findLeastRecentlyUsed set) ->
     (findLeastRecentlyUsed set <= j)%nat).
Proof.
  intros Hne. destruct (victim_spec set Hne) as (Hin & Hmax & Hbefore).
  split; [done|]. split; [done|].
  intros j Hj Heq. destruct (decide (findLeastRecentlyUsed set <= j)%nat) as [|Hlt];
    [done|].
  specialize (Hbefore j ltac:(lia)). lia.
Qed.

Lemma findLeastRecentlyUsed_first_max_witness :
  let set := [mkLine 1 7 0 2; mkLine 1 8 1 5; mkLine 1 9 0 5; mkLine 1 4 0 1] in
  findLeastRecentlyUsed set = 1%nat /\
  (findLeastRecentlyUsed set < length set)%nat /\
  (forall j, (j < length set)%nat ->
     lastUsedAt set j <= lastUsedAt set (findLeastRecentlyUsed set)) /\
  (forall j, (j < length set)%nat ->
     lastUsedAt set j = lastUsedAt set (findLeastRecentlyUsed set) ->
     (findLeastRecentlyUsed set <= j)%nat).
Proof.
  intros set. split; [reflexivity|].
  apply (findLeastRecentlyUsed_first_max set). discriminate.
Defined.

(** C4. In every state of a run, an access (whether it hits, installs into a
    free line or evicts) ends with one line [i] of the addressed set holding
    the requested tag with [lastUsed = 0], every other line of that set has
    its [lastUsed] one larger than before, and [i] is the only line of the
    set whose [lastUsed] is 0. *)
Theorem access_resets_one_ages_others (s E b : Z) (st : state) (addr : Z)
    (operation : ascii) :
  defined_geometry s E b ->
  reachable s E b st ->
  exists o st' set t row row' i fresh,
    decode s b addr = Some (set, t) /\
    cache st !! Z.to_nat set = Some row /\
    updateData s b addr operation st = Some (o, st') /\
    cache st' !! Z.to_nat set = Some row' /\
    length row' = length row /\
    row' !! i = Some fresh /\
    valid fresh = 1 /\ tag fresh = t /\ lastUsed fresh = 0 /\
    (forall j l, j <> i -> row !! j = Some l ->
       exists l', row' !! j = Some l' /\ lastUsed l' = lastUsed l + 1) /\
    (forall j l', row' !! j = Some l' -> lastUsed l' = 0 <-> j = i).
Proof.
  intros Hg Hreach.
  destruct (reachable_wf s E b st Hg Hreach) as (Hwf & _).
  destruct (decode_row s E b (cache st) addr Hg Hwf)
    as (set & t & row & Hd & Hrow & (Hlen & Hall) & Hne).
  destruct (updateData_set_touch b row t operation (stats st) Hne)
    as (i & fresh & Hi & Htouch & Hval & Htag & Hlu).
  eexists _, _, set, t, row, (touch row i fresh), i, fresh.
  rewrite (updateData_unfold s b st addr operation set t row Hd Hrow).
  rewrite Htouch. simpl.
  split; [done|]. split; [done|]. split; [done|]. split.
  { apply list_lookup_insert_eq. by eapply lookup_lt_Some. }
  split; [apply length_touch|].
  destruct (lookup_lt_is_Some_2 row i Hi) as [l Hl].
  assert (forall j, touch row i fresh !! j =
            (fun x => if decide (j = i) then fresh
                      else set_lastUsed (lastUsed x + 1) x) <$> row !! j) as Hlk
    by (intros j; apply touch_lookup).
  split.
  { rewrite Hlk, Hl. simpl. by case_decide. }
  split; [done|]. split; [done|]. split; [done|]. split.
  - intros j l0 Hj Hl0. rewrite Hlk, Hl0. simpl. case_decide; [done|]. by eexists.
  - intros j l'. rewrite Hlk. destruct (row !! j) as [l0|] eqn:Hl0; simpl; [|done].
    intros [= <-]. case_decide; [done|]. simpl.
    rewrite Forall_lookup in Hall. destruct (Hall j l0 Hl0) as (_ & Hpos).
    split; [lia|done].
Qed.

Lemma access_resets_one_ages_others_witness :
  exists o st' row',
    updateData 1 0 2 "L"%char (init_state 1 2 nojunk) = Some (o, st') /\
    cache st' !! 0%nat = Some row' /\
    lastUsed <$> row' = [0; 1].
Proof.
  destruct (access_resets_one_ages_others 1 2 0 (init_state 1 2 nojunk) 2 "L"%char)
    as (o & st' & set & t & row & row' & i & fresh & Hd & _ & Hu & Hrow' & _).
  - unfold defined_geometry. lia.
  - exists nojunk, []. reflexivity.
  - exists o, st', row'. vm_compute in Hd. injection Hd as <- <-.
    split; [exact Hu|]. split; [exact Hrow'|].
    vm_compute in Hu. injection Hu as <- <-.
    vm_compute in Hrow'. injection Hrow' as <-. reflexivity.
Defined.

(** C5, as the code has it.  From the initial cache, after any trace,
    [dirty_bytes] is the sum of the block size over the valid dirty lines
    reduced modulo [2^64], the width of the counter; it lies between 0 and
    [E * 2^s * 2^b]; and it is that sum itself whenever the capacity
    [E * 2^s * 2^b] is below [2^64]. *)
Theorem dirty_bytes_is_wrapped_sum (s E b : Z) (junk : nat -> nat -> Z)
    (trace : list traceRecord) :
  defined_geometry s E b ->
  exists st,
    run s b trace (init_state s E junk) = Some st /\
    dirty_bytes (stats st) = ulong (cache_dirty_bytes b (cache st)) /\
    0 <= dirty_bytes (stats st) <= E * 2 ^ s * 2 ^ b /\
    (E * 2 ^ s * 2 ^ b < 2 ^ 64 ->
     dirty_bytes (stats st) = cache_dirty_bytes b (cache st)).
Proof.
  intros Hg.
  destruct (run_wf s E b trace _ Hg (init_wf s E b junk Hg)) as (st & Hrun & Hwf & Hdb).
  exists st. split; [done|]. split; [done|].
  destruct Hg as (Hs & HE & Hb & _).
  pose proof (cache_dirty_bytes_range s E b (cache st) Hb HE ltac:(lia) Hwf) as Hr.
  rewrite Hdb. split.
  - pose proof (ulong_range (cache_dirty_bytes b (cache st))).
    pose proof (ulong_le (cache_dirty_bytes b (cache st))). lia.
  - intros Hcap. apply ulong_small. lia.
Qed.

Lemma dirty_bytes_is_wrapped_sum_witness :
  exists st,
    run 0 4 [St 0; St 16; L 32] (init_state 0 2 nojunk) = Some st /\
    dirty_bytes (stats st) = 16 /\
    cache_dirty_bytes 4 (cache st) = 16.
Proof.
  destruct (dirty_bytes_is_wrapped_sum 0 2 4 nojunk [St 0; St 16; L 32])
    as (st & Hrun & _ & _ & Hexact).
  - unfold defined_geometry. lia.
  - exists st. split; [exact Hrun|].
    rewrite <- Hexact by (vm_compute; reflexivity).
    vm_compute in Hrun. injection Hrun as <-. split; reflexivity.
Defined.

(** C5, as stated, fails: with [s = 0], [E = 2], [b = 63] (a geometry that
    [parseArgument] accepts and on which every operation is defined) two
    stores to the two blocks leave two valid dirty lines of [2^63] bytes each,
    while the counter has wrapped to 0. *)
Lemma dirty_bytes_sum_wraps :
  accepted_geometry 0 2 63 /\ defined_geometry 0 2 63 /\
  exists st,
    run 0 63 [St 0; St (- 2 ^ 63)] (init_state 0 2 nojunk) = Some st /\
    cache st = [[mkLine 1 0 1 1; mkLine 1 (-1) 1 0]] /\
    dirty_bytes (stats st) = 0 /\
    cache_dirty_bytes 63 (cache st) = 2 ^ 64 /\
    dirty_bytes (stats st) <> cache_dirty_bytes 63 (cache st).
Proof.
  split; [unfold accepted_geometry; lia|].
  split; [unfold defined_geometry; lia|].
  eexists. split; [vm_compute; reflexivity|]. simpl.
  split; [reflexivity|]. split; [reflexivity|]. split; [reflexivity|].
  vm_compute. discriminate.
Qed.

(** ** The decoder *)

Lemma shiftr_minus_pow (a n : Z) :
  0 <= n <= 64 -> Z.shiftr (a - 2 ^ 64) n = Z.shiftr a n - 2 ^ (64 - n).
Proof.
  intros Hn. rewrite !Z.shiftr_div_pow2 by lia.
  replace (a - 2 ^ 64) with (a + (- 2 ^ (64 - n)) * 2 ^ n).
  - rewrite Z.div_add by (apply Z.pow_nonzero; lia). lia.
  - replace 64 with ((64 - n) + n) at 2 by lia.
    rewrite Z.pow_add_r by lia. lia.
Qed.

Lemma land_low_minus_pow (x s k : Z) :
  0 <= s <= k -> Z.land (x - 2 ^ k) (2 ^ s - 1) = Z.land x (2 ^ s - 1).
Proof.
  intros Hs. replace (2 ^ s - 1) with (Z.ones s) by (rewrite Z.ones_equiv; lia).
  rewrite !Z.land_ones by lia.
  replace (x - 2 ^ k) with (x + (- 2 ^ (k - s)) * 2 ^ s).
  - apply Z_mod_plus_full.
  - replace k with ((k - s) + s) at 2 by lia.
    rewrite Z.pow_add_r by lia. lia.
Qed.

(** C6, as the code has it.  [updateData] receives the address as a signed
    [long].  For a 64-bit address [a] and a geometry with [0 <= s <= 30],
    [b >= 0] and [s + b <= 63], the set index is [(a >> b) & ((1 << s) - 1)],
    and the tag is the arithmetic shift of the signed value: the logical
    shift [a >> (s+b)] when [a < 2^63], and that value minus [2^(64-s-b)]
    (the sign bits) otherwise. *)
Theorem decode_signed_address (s E b a : Z) :
  defined_geometry s E b ->
  0 <= a < 2 ^ 64 ->
  exists t,
    decode s b (to_long a) = Some (spec_setIndex s b a, t) /\
    t = Z.shiftr (to_long a) (s + b) /\
    (a < 2 ^ 63 -> t = spec_tag s b a) /\
    (2 ^ 63 <= a -> t = spec_tag s b a - 2 ^ (64 - (s + b))).
Proof.
  intros Hg Ha. pose proof Hg as (Hs & HE & Hb & Hsb).
  exists (Z.shiftr (to_long a) (s + b)).
  rewrite (decode_defined s E b _ Hg).
  unfold spec_setIndex, spec_tag, to_long. rewrite Z.shiftl_1_l.
  destruct (Z.ltb_spec a (2 ^ 63)) as [Hlt|Hge].
  - split; [done|]. split; [done|]. split; [done|lia].
  - rewrite !shiftr_minus_pow by lia.
    rewrite land_low_minus_pow by lia.
    split; [done|]. split; [done|]. split; [lia|done].
Qed.

Lemma decode_signed_address_witness :
  decode 2 4 (to_long 0x1234) = Some (3, 0x48) /\
  decode 2 4 (to_long (2 ^ 64 - 1)) = Some (3, -1).
Proof.
  destruct (decode_signed_address 2 1 4 0x1234) as (t & Hd & Ht & _); [| |].
  - unfold defined_geometry. lia.
  - lia.
  - destruct (decode_signed_address 2 1 4 (2 ^ 64 - 1)) as (t' & Hd' & Ht' & _).
    + unfold defined_geometry. lia.
    + lia.
    + rewrite Hd, Hd', Ht, Ht'. split; reflexivity.
Defined.

(** C6, as stated, fails on three counts.  The address [2^63] with [s = 0],
    [b = 1] decodes to the tag [-2^62], whose 64-bit pattern is not the
    logical shift [2^62]; with [s = 31] the mask [1 << s] is undefined; with
    [s + b = 64] the shift of the tag is undefined. *)
Lemma decode_is_not_logical_shift :
  (decode 0 1 (to_long (2 ^ 63)) = Some (0, - 2 ^ 62) /\
   spec_tag 0 1 (2 ^ 63) = 2 ^ 62 /\
   of_long (- 2 ^ 62) <> spec_tag 0 1 (2 ^ 63)) /\
  (accepted_geometry 31 1 0 /\ decode 31 0 0 = None) /\
  (accepted_geometry 1 1 63 /\ decode 1 63 0 = None).
Proof.
  split; [|split].
  - split; [reflexivity|]. split; [reflexivity|]. vm_compute. discriminate.
  - split; [unfold accepted_geometry; lia|reflexivity].
  - split; [unfold accepted_geometry; lia|reflexivity].
Qed.

(** C7.  The code has no branch for [s + b = 64]: [updateData] evaluates
    [addr >> (s + b)] with the count 64, a shift by the full width of [long],
    for every address; no tag is produced. *)
Theorem full_width_shift_is_not_guarded (s addr : Z) :
  decode s (64 - s) addr = None.
Proof.
  unfold decode. destruct (shr_long addr (64 - s)); [|done].
  destruct (shl_int 1 s); [|done].
  replace (s + (64 - s)) with 64 by lia. reflexivity.
Qed.

(** ** Counting hits and misses *)

Lemma updateData_set_counts (b : Z) (set : list cacheLine) (t : Z)
    (operation : ascii) (st : csim_stats_t) :
  set <> [] ->
  ((updateData_set b set t operation st).1.1 = Hit /\
   hits (updateData_set b set t operation st).2 = ulong (hits st + 1) /\
   misses (updateData_set b set t operation st).2 = misses st) \/
  ((updateData_set b set t operation st).1.1 <> Hit /\
   hits (updateData_set b set t operation st).2 = hits st /\
   misses (updateData_set b set t operation st).2 = ulong (misses st + 1)).
Proof.
  intros Hne.
  destruct (access_cases set t Hne)
    as [(i & l & Hhit)|[(Hmiss & i & l & Hfree)|(Hmiss & Hfull & l & Hv)]].
  - left. rewrite (updateData_set_hit b _ _ _ _ i l Hhit). simpl.
    by destruct (_ && _).
  - right. rewrite (updateData_set_free b _ _ _ _ i l Hmiss Hfree). simpl.
    by destruct (is_store operation).
  - right. rewrite (updateData_set_full b _ _ _ _ l Hmiss Hfull Hv). simpl.
    by destruct (is_store operation), (dirty l =? 0).
Qed.

Lemma count_LS_cons (r : traceRecord) (trace : list traceRecord) :
  count_LS (r :: trace) =
  (if is_load (rec_op r) || is_store (rec_op r) then 1 else 0) + count_LS trace.
Proof.
  unfold count_LS. rewrite filter_cons.
  destruct (is_load (rec_op r) || is_store (rec_op r)); case_decide; try done.
  rewrite length_cons. lia.
Qed.

Section Counting.

Variables (s E b : Z).
Hypothesis Hg : defined_geometry s E b.

Lemma updateData_counts (st : state) (addr : Z) (operation : ascii) :
  wf_state s E b st ->
  exists o st',
    updateData s b addr operation st = Some (o, st') /\
    wf_state s E b st' /\
    ((o = Hit /\ hits (stats st') = ulong (hits (stats st) + 1) /\
      misses (stats st') = misses (stats st)) \/
     (o <> Hit /\ hits (stats st') = hits (stats st) /\
      misses (stats st') = ulong (misses (stats st) + 1))).
Proof.
  intros Hwf.
  destruct (updateData_wf s E b st addr operation Hg Hwf) as (o & st' & Hu & Hwf').
  exists o, st'. split; [done|]. split; [done|].
  destruct Hwf as (Hc & _).
  destruct (decode_row s E b (cache st) addr Hg Hc) as (set & t & row & Hd & Hrow & _ & Hne).
  rewrite (updateData_unfold s b st addr operation set t row Hd Hrow) in Hu.
  injection Hu as <- <-. simpl.
  apply updateData_set_counts, Hne.
Qed.

Lemma run_counts (trace : list traceRecord) (st : state) (h m : Z) :
  wf_state s E b st ->
  hits (stats st) = ulong h -> misses (stats st) = ulong m ->
  exists st' h' m',
    run s b trace st = Some st' /\
    hits (stats st') = ulong h' /\ misses (stats st') = ulong m' /\
    h <= h' /\ m <= m' /\ h' + m' = h + m + count_LS trace.
Proof.
  revert st h m. induction trace as [|r rest IH]; intros st h m Hwf Hh Hm.
  - exists st, h, m. simpl. unfold count_LS. simpl. repeat split; try done; lia.
  - rewrite count_LS_cons. simpl. unfold step.
    destruct (is_load (rec_op r) || is_store (rec_op r)).
    + destruct (updateData_counts st (rec_addr r) (rec_op r) Hwf)
        as (o & st1 & -> & Hwf1 & [(_ & Hh1 & Hm1)|(_ & Hh1 & Hm1)]).
      * destruct (IH st1 (h + 1) m Hwf1) as (st' & h' & m' & Hrun & ? & ? & ? & ? & ?).
        { by rewrite Hh1, Hh, ulong_add_l. }
        { by rewrite Hm1. }
        exists st', h', m'. repeat split; try done; lia.
      * destruct (IH st1 h (m + 1) Hwf1) as (st' & h' & m' & Hrun & ? & ? & ? & ? & ?).
        { by rewrite Hh1. }
        { by rewrite Hm1, Hm, ulong_add_l. }
        exists st', h', m'. repeat split; try done; lia.
    + destruct (IH st h m Hwf Hh Hm) as (st' & h' & m' & Hrun & ? & ? & ? & ? & ?).
      exists st', h', m'. repeat split; try done; lia.
Qed.

End Counting.

(** C8. From the initial cache every trace is processed to the end; as long
    as the trace has fewer than [2^64] load and store records (the width of
    the counters), [hits + misses] is the number of those records.  In any
    state of a run a load or store record raises exactly one of [hits] and
    [misses] by one, according to whether it hits, and leaves the other
    alone; a record with any other operation leaves the whole state, cache
    and statistics, as it was. *)
Theorem hits_plus_misses_counts_records (s E b : Z) (junk : nat -> nat -> Z)
    (trace : list traceRecord) :
  defined_geometry s E b ->
  (exists st,
     run s b trace (init_state s E junk) = Some st /\
     (count_LS trace < 2 ^ 64 ->
      hits (stats st) + misses (stats st) = count_LS trace)) /\
  (forall st0 r,
     reachable s E b st0 ->
     is_load (rec_op r) || is_store (rec_op r) = true ->
     exists o st1,
       updateData s b (rec_addr r) (rec_op r) st0 = Some (o, st1) /\
       step s b r st0 = Some st1 /\
       ((o = Hit /\ hits (stats st1) = ulong (hits (stats st0) + 1) /\
         misses (stats st1) = misses (stats st0)) \/
        (o <> Hit /\ hits (stats st1) = hits (stats st0) /\
         misses (stats st1) = ulong (misses (stats st0) + 1)))) /\
  (forall st0 r,
     is_load (rec_op r) || is_store (rec_op r) = false ->
     step s b r st0 = Some st0).
Proof.
  intros Hg. split; [|split].
  - destruct (run_counts s E b Hg trace (init_state s E junk) 0 0)
      as (st & h & m & Hrun & Hh & Hm & Hh0 & Hm0 & Hsum);
      [by apply init_wf|done|done|].
    exists st. split; [done|]. intros Hsmall.
    rewrite Hh, Hm, !ulong_small; lia.
  - intros st0 r Hreach Hop.
    destruct (updateData_counts s E b Hg st0 (rec_addr r) (rec_op r))
      as (o & st1 & Hu & _ & Hcases); [by apply reachable_wf|].
    exists o, st1. split; [done|]. split; [|done].
    unfold step. by rewrite Hop, Hu.
  - intros st0 r Hop. unfold step. by rewrite Hop.
Qed.

Lemma hits_plus_misses_counts_records_witness :
  exists st,
    run 1 0 [L 0; mkRecord "M"%char 2 1; St 2; L 0; L 1; mkRecord "I"%char 0 1]
        (init_state 1 1 nojunk) = Some st /\
    hits (stats st) + misses (stats st) = 4.
Proof.
  destruct (hits_plus_misses_counts_records 1 1 0 nojunk
              [L 0; mkRecord "M"%char 2 1; St 2; L 0; L 1; mkRecord "I"%char 0 1])
    as ((st & Hrun & Hsum) & _).
  - unfold defined_geometry. lia.
  - exists st. split; [exact Hrun|]. apply Hsum. vm_compute. reflexivity.
Defined.

(** C9. On a miss in a set that has an invalid line, the line installed is
    the invalid line of lowest storage index [i]: the install loop leaves it
    valid with the new tag, clean and most recently used, and reports that
    the set was not full.  The access is counted as a miss without eviction;
    every other line of the set only ages; a store then marks the installed
    line dirty and adds [2^b] to [dirty_bytes], any other operation leaves it
    clean. *)
Theorem free_line_install (s b : Z) (st : state) (addr : Z) (operation : ascii)
    (set t : Z) (row : list cacheLine) (i : nat) (l : cacheLine) :
  decode s b addr = Some (set, t) ->
  cache st !! Z.to_nat set = Some row ->
  Forall (fun l0 => ~ line_hit t l0) row ->
  row !! i = Some l ->
  valid l = 0 ->
  (forall j l0, (j < i)%nat -> row !! j = Some l0 -> valid l0 <> 0) ->
  exists row1 st' row',
    installFree row t = (false, i, row1) /\
    row1 !! i = Some (mkLine 1 t 0 0) /\
    updateData s b addr operation st = Some (Miss, st') /\
    cache st' !! Z.to_nat set = Some row' /\
    row' !! i = Some (mkLine 1 t (if is_store operation then 1 else 0) 0) /\
    (forall j l0, j <> i -> row !! j = Some l0 ->
       row' !! j = Some (set_lastUsed (lastUsed l0 + 1) l0)) /\
    hits (stats st') = hits (stats st) /\
    misses (stats st') = ulong (misses (stats st) + 1) /\
    evictions (stats st') = evictions (stats st) /\
    dirty_evictions (stats st') = dirty_evictions (stats st) /\
    dirty_bytes (stats st') =
      (if is_store operation then ulong (dirty_bytes (stats st) + 2 ^ b)
       else dirty_bytes (stats st)).
Proof.
  intros Hd Hrow Hmiss Hi Hval Hfirst.
  rewrite <- list_find_None in Hmiss.
  assert (list_find line_free row = Some (i, l)) as Hfree.
  { apply list_find_Some. split; [done|]. split; [done|].
    intros j l0 Hj Hlt. by apply (Hfirst j l0). }
  eexists _, _, _.
  rewrite (installFree_free row t i l Hfree).
  rewrite (updateData_unfold s b st addr operation set t row Hd Hrow).
  rewrite (updateData_set_free b row t operation (stats st) i l Hmiss Hfree). simpl.
  split; [done|]. split.
  { rewrite touch_lookup, Hi. simpl. by case_decide. }
  split; [done|]. split.
  { apply list_lookup_insert_eq. by eapply lookup_lt_Some. }
  split.
  { rewrite touch_lookup, Hi. simpl. by case_decide. }
  split.
  { intros j l0 Hj Hl0. rewrite touch_lookup, Hl0. simpl. by case_decide. }
  by destruct (is_store operation).
Qed.

Lemma free_line_install_witness :
  let st0 := mkState [[mkLine 1 3 1 0; mkLine 0 9 0 1; mkLine 0 9 0 1]]
                     (mkStats 0 1 0 4 0) in
  exists st',
    updateData 0 2 20 "L"%char st0 = Some (Miss, st') /\
    cache st' = [[mkLine 1 3 1 1; mkLine 1 5 0 0; mkLine 0 9 0 2]] /\
    stats st' = mkStats 0 2 0 4 0.
Proof.
  intros st0.
  destruct (free_line_install 0 2 st0 20 "L"%char 0 5
              [mkLine 1 3 1 0; mkLine 0 9 0 1; mkLine 0 9 0 1] 1%nat (mkLine 0 9 0 1))
    as (row1 & st' & row' & _ & _ & Hu & _).
  - reflexivity.
  - reflexivity.
  - repeat constructor; intros [H1 H2]; discriminate.
  - reflexivity.
  - reflexivity.
  - intros j l0 Hj Hl0. assert (j = 0%nat) as -> by lia.
    injection Hl0 as <-. discriminate.
  - exists st'. split; [exact Hu|].
    vm_compute in Hu. injection Hu as <-. split; reflexivity.
Defined.

(** C10. An access changes the cache only at the set its address selects:
    the number of sets is the same and every other set is the very same
    list of lines.  And along a run a line that is valid stays valid: if
    line [j] of set [k] has [valid = 1] in a state, it has [valid = 1] in
    every later state. *)
Theorem access_frame_and_validity (s b : Z) :
  (forall st addr operation o st',
     updateData s b addr operation st = Some (o, st') ->
     exists set t,
       decode s b addr = Some (set, t) /\
       length (cache st') = length (cache st) /\
       forall k, k <> Z.to_nat set -> cache st' !! k = cache st !! k) /\
  (forall trace st st' k j row l,
     run s b trace st = Some st' ->
     cache st !! k = Some row -> row !! j = Some l -> valid l = 1 ->
     exists row' l',
       cache st' !! k = Some row' /\ row' !! j = Some l' /\ valid l' = 1).
Proof.
  split.
  - intros st addr operation o st' Hu.
    apply updateData_inv in Hu as (set & t & row & Hd & _ & _ & Hc & _).
    exists set, t. split; [done|]. rewrite Hc. split; [apply length_insert|].
    intros k Hk. by rewrite list_lookup_insert_ne.
  - induction trace as [|r rest IH]; intros st st' k j row l Hrun Hk Hj Hval.
    + injection Hrun as <-. eauto.
    + simpl in Hrun. destruct (step s b r st) as [st1|] eqn:Hstep; [|done].
      destruct (step_valid s b r st st1 k j row l Hstep Hk Hj Hval)
        as (row1 & l1 & Hk1 & Hj1 & Hval1).
      by apply (IH st1 st' k j row1 l1).
Qed.

Lemma access_frame_and_validity_witness :
  let st0 := mkState [[mkLine 1 3 1 0]; [mkLine 1 0 0 4]] (mkStats 1 2 0 1 0) in
  let st1 := mkState [[mkLine 1 2 0 0]; [mkLine 1 0 0 4]] (mkStats 1 3 1 0 1) in
  let st2 := mkState [[mkLine 1 1 1 0]; [mkLine 1 0 0 4]] (mkStats 1 4 2 1 1) in
  updateData 1 0 4 "L"%char st0 = Some (MissEviction, st1) /\
  run 1 0 [L 4; St 2] st0 = Some st2 /\
  (exists set t,
     decode 1 0 4 = Some (set, t) /\
     length (cache st1) = length (cache st0) /\
     forall k, k <> Z.to_nat set -> cache st1 !! k = cache st0 !! k) /\
  (exists row' l',
     cache st2 !! 0%nat = Some row' /\ row' !! 0%nat = Some l' /\ valid l' = 1).
Proof.
  intros st0 st1 st2.
  split; [reflexivity|]. split; [reflexivity|]. split.
  - apply (proj1 (access_frame_and_validity 1 0) st0 4 "L"%char MissEviction st1).
    reflexivity.
  - apply (proj2 (access_frame_and_validity 1 0) [L 4; St 2] st0 st2
             0%nat 0%nat [mkLine 1 3 1 0] (mkLine 1 3 1 0)); reflexivity.
Defined.

(** * Further properties of the simulator *)

Lemma touch_lookup_Some (set : list cacheLine) (i j : nat) (new l' : cacheLine) :
  touch set i new !! j = Some l' ->
  exists l, set !! j = Some l /\
            l' = if decide (j = i) then new else set_lastUsed (lastUsed l + 1) l.
Proof.
  rewrite touch_lookup. destruct (set !! j) as [l|]; simpl; [|done].
  intros [= <-]. by exists l.
Qed.

Section SetInvariants.

Variables (s E b : Z).

(** A property of the sets that the initial sets have and an access keeps
    holds of every set of every state of a run. *)
Lemma reachable_sets (P : list cacheLine -> Prop) (st : state) :
  defined_geometry s E b ->
  (forall set, Forall (fun l => valid l = 0 /\ lastUsed l = 0) set -> P set) ->
  (forall set t operation stt,
     wf_set E set -> set <> [] -> P set ->
     P (updateData_set b set t operation stt).1.2) ->
  reachable s E b st ->
  forall k row, cache st !! k = Some row -> P row.
Proof.
  intros Hg Hinit Hkeep (junk & trace & Hrun).
  assert (forall tr st0 st1,
            wf_state s E b st0 ->
            (forall k row, cache st0 !! k = Some row -> P row) ->
            run s b tr st0 = Some st1 ->
            forall k row, cache st1 !! k = Some row -> P row) as Hgen.
  { induction tr as [|r rest IH]; intros st0 st1 Hwf HP Hr.
    - by injection Hr as <-.
    - simpl in Hr. destruct (step s b r st0) as [st2|] eqn:Hstep; [|done].
      destruct (step_wf s E b r st0 Hg Hwf) as (st2' & Hstep' & Hwf2).
      assert (st2' = st2) as -> by congruence.
      apply (IH st2 st1 Hwf2); [|done].
      unfold step in Hstep. destruct (_ || _); [|by injection Hstep as <-].
      destruct (updateData _ _ _ _ _) as [[o st3]|] eqn:Hu; [|done].
      injection Hstep as ->.
      apply updateData_inv in Hu as (set & t & row0 & _ & Hrow0 & _ & Hc & _).
      intros k row. rewrite Hc.
      destruct (decide (k = Z.to_nat set)) as [->|Hne].
      + rewrite list_lookup_insert_eq by (by eapply lookup_lt_Some).
        intros [= <-]. destruct Hwf as ((_ & Hsets) & _).
        rewrite Forall_lookup in Hsets. pose proof (Hsets _ _ Hrow0) as Hw.
        apply Hkeep; [done| |by eapply HP].
        destruct Hw as (Hl & _), Hg as (_ & HE & _). intros ->. simpl in Hl. lia.
      + rewrite list_lookup_insert_ne by done. apply HP. }
  apply (Hgen trace (init_state s E junk) st); [by apply init_wf| |done].
  intros k row Hk. apply Hinit. unfold init_state, init in Hk. simpl in Hk.
  rewrite list_lookup_fmap in Hk.
  destruct (seq 0 (Z.to_nat (2 ^ s)) !! k); simpl in Hk; [|done].
  injection Hk as <-. apply Forall_fmap, Forall_forall. by intros.
Qed.

Lemma unique_tags_keep (set : list cacheLine) (t : Z) (operation : ascii)
    (stt : csim_stats_t) :
  set <> [] -> unique_tags set ->
  unique_tags (updateData_set b set t operation stt).1.2.
Proof.
  intros Hne Huniq.
  assert (forall i new,
            valid new = 1 ->
            (forall j l, set !! j = Some l -> valid l = 1 -> tag l = tag new -> j = i) ->
            unique_tags (touch set i new)) as Htouch.
  { intros i new Hv Hnew j1 j2 l1 l2 H1 H2 Hv1 Hv2 Htag.
    apply touch_lookup_Some in H1 as (x1 & Hx1 & ->).
    apply touch_lookup_Some in H2 as (x2 & Hx2 & ->).
    destruct (decide (j1 = i)) as [->|Hn1], (decide (j2 = i)) as [->|Hn2]; simpl in *.
    - done.
    - symmetry. by apply (Hnew j2 x2).
    - by apply (Hnew j1 x1).
    - by apply (Huniq j1 j2 x1 x2). }
  destruct (access_cases set t Hne)
    as [(i & l & Hhit)|[(Hmiss & i & l & Hfree)|(Hmiss & Hfull & l & Hv)]].
  - rewrite (updateData_set_hit b _ _ _ _ i l Hhit). simpl.
    apply list_find_Some in Hhit as (Hi & (Hval & Htag) & _).
    apply Htouch; [done|]. intros j l0 Hj Hv0 Ht0. by apply (Huniq j i l0 l).
  - rewrite (updateData_set_free b _ _ _ _ i l Hmiss Hfree). simpl.
    apply Htouch; [done|]. intros j l0 Hj Hv0 Ht0. exfalso.
    rewrite list_find_None, Forall_lookup in Hmiss. by apply (Hmiss j l0 Hj).
  - rewrite (updateData_set_full b _ _ _ _ l Hmiss Hfull Hv). simpl.
    apply Htouch; [done|]. intros j l0 Hj Hv0 Ht0. exfalso.
    rewrite list_find_None, Forall_lookup in Hmiss. by apply (Hmiss j l0 Hj).
Qed.

Lemma recency_keep (set : list cacheLine) (t : Z) (operation : ascii)
    (stt : csim_stats_t) :
  set <> [] -> (exists n, recency_ok n set) ->
  exists n, recency_ok n (updateData_set b set t operation stt).1.2.
Proof.
  intros Hne (n & Hn & Hval & Hdist).
  destruct (updateData_set_touch b set t operation stt Hne)
    as (i & new & _ & -> & Hv & _ & Hlu).
  exists (n + 1). split; [lia|]. split.
  - intros j l' (l & Hl & ->)%touch_lookup_Some.
    destruct (Hval j l Hl) as (H0 & H1).
    case_decide; simpl; [split; [rewrite Hv; lia|lia]|].
    split; intros Hvl; [rewrite (H0 Hvl); lia|specialize (H1 Hvl); lia].
  - intros j1 j2 l1 l2 (x1 & Hx1 & ->)%touch_lookup_Some
                       (x2 & Hx2 & ->)%touch_lookup_Some.
    destruct (Hval j1 x1 Hx1) as (_ & Hp1), (Hval j2 x2 Hx2) as (_ & Hp2).
    destruct (decide (j1 = i)) as [->|Hn1], (decide (j2 = i)) as [->|Hn2];
      simpl; intros Hv1 Hv2 Heq.
    + done.
    + specialize (Hp2 Hv2). lia.
    + specialize (Hp1 Hv1). lia.
    + apply (Hdist j1 j2 x1 x2); try done. lia.
Qed.

End SetInvariants.

(** X1. In every state of a run, no set holds the same tag in two valid
    lines: the scan of [isMiss] can match at most one line. *)
Theorem resident_tags_unique (s E b : Z) (st : state) (k : nat)
    (row : list cacheLine) :
  defined_geometry s E b ->
  reachable s E b st ->
  cache st !! k = Some row ->
  forall i j l1 l2,
    row !! i = Some l1 -> row !! j = Some l2 ->
    valid l1 = 1 -> valid l2 = 1 -> tag l1 = tag l2 -> i = j.
Proof.
  intros Hg Hreach Hk. change (unique_tags row).
  eapply (reachable_sets s E b unique_tags st Hg); [| |exact Hreach|exact Hk].
  - intros set Hall i j l1 l2 Hi _ Hv _ _. rewrite Forall_lookup in Hall.
    destruct (Hall i l1 Hi) as (H0 & _). congruence.
  - intros set t operation stt _ Hne Hu. by apply unique_tags_keep.
Qed.

Lemma resident_tags_unique_witness :
  exists st row,
    run 0 0 [L 5; St 7; L 5; L 9] (init_state 0 2 nojunk) = Some st /\
    cache st !! 0%nat = Some row /\
    tag <$> row = [5; 9] /\
    forall i j l1 l2,
      row !! i = Some l1 -> row !! j = Some l2 ->
      valid l1 = 1 -> valid l2 = 1 -> tag l1 = tag l2 -> i = j.
Proof.
  eexists _, _. split; [reflexivity|]. split; [reflexivity|]. split; [reflexivity|].
  eapply (resident_tags_unique 0 2 0 _ 0%nat).
  - unfold defined_geometry. lia.
  - exists nojunk, [L 5; St 7; L 5; L 9]. reflexivity.
  - reflexivity.
Defined.

(** X2. In every state of a run, the valid lines of a set have pairwise
    different [lastUsed]; so in a full set the victim of
    [findLeastRecentlyUsed] is strictly older than every other line: the
    tie-break of the scan never decides an eviction. *)
Theorem full_set_victim_is_strictly_oldest (s E b : Z) (st : state) (k : nat)
    (row : list cacheLine) :
  defined_geometry s E b ->
  reachable s E b st ->
  cache st !! k = Some row ->
  (forall i j l1 l2,
     row !! i = Some l1 -> row !! j = Some l2 ->
     valid l1 = 1 -> valid l2 = 1 -> lastUsed l1 = lastUsed l2 -> i = j) /\
  (Forall (fun l => valid l <> 0) row ->
   forall j, (j < length row)%nat -> j <> findLeastRecentlyUsed row ->
     lastUsedAt row j < lastUsedAt row (findLeastRecentlyUsed row)).
Proof.
  intros Hg Hreach Hk.
  assert (exists n, recency_ok n row) as (n & _ & _ & Hdist).
  { eapply (reachable_sets s E b (fun set => exists n, recency_ok n set) st Hg);
      [| |exact Hreach|exact Hk].
    - intros set Hall. exists 0. split; [done|]. rewrite Forall_lookup in Hall.
      split.
      + intros i l Hi. destruct (Hall i l Hi) as (H0 & H1). split; [done|].
        intros Hv. congruence.
      + intros i1 i2 l1 l2 Hi1 _ Hv. destruct (Hall i1 l1 Hi1). congruence.
    - intros set t operation stt _ Hne' Hr. by apply recency_keep. }
  split; [exact Hdist|].
  intros Hfull j Hj Hne.
  destruct (reachable_wf s E b st Hg Hreach) as ((_ & Hsets) & _).
  rewrite Forall_lookup in Hsets. destruct (Hsets k row Hk) as (_ & Hlines).
  rewrite Forall_lookup in Hlines, Hfull.
  assert (row <> []) as Hnil by (intros ->; simpl in Hj; lia).
  destruct (victim_spec row Hnil) as (Hv & Hmax & _).
  destruct (lookup_lt_is_Some_2 row j Hj) as [lj Hlj].
  destruct (lookup_lt_is_Some_2 row _ Hv) as [lv Hlv].
  assert (forall i l, row !! i = Some l -> valid l = 1) as Hvalid.
  { intros i l Hi. destruct (Hlines i l Hi) as ([H0|H1] & _); [|done].
    by destruct (Hfull i l Hi). }
  specialize (Hmax j Hj).
  unfold lastUsedAt in *. rewrite Hlj, Hlv in *. simpl in *.
  destruct (decide (lastUsed lj = lastUsed lv)) as [Heq|]; [|lia].
  destruct Hne. apply (Hdist j _ lj lv); eauto.
Qed.

Lemma full_set_victim_is_strictly_oldest_witness :
  exists st row,
    run 0 0 [L 5; St 7; L 5; L 5] (init_state 0 2 nojunk) = Some st /\
    cache st !! 0%nat = Some row /\
    lastUsed <$> row = [0; 2] /\
    findLeastRecentlyUsed row = 1%nat /\
    (forall i j l1 l2,
       row !! i = Some l1 -> row !! j = Some l2 ->
       valid l1 = 1 -> valid l2 = 1 -> lastUsed l1 = lastUsed l2 -> i = j) /\
    (Forall (fun l => valid l <> 0) row ->
     forall j, (j < length row)%nat -> j <> findLeastRecentlyUsed row ->
       lastUsedAt row j < lastUsedAt row (findLeastRecentlyUsed row)).
Proof.
  eexists _, _. split; [reflexivity|]. split; [reflexivity|]. split; [reflexivity|].
  split; [reflexivity|].
  eapply (full_set_victim_is_strictly_oldest 0 2 0 _ 0%nat).
  - unfold defined_geometry. lia.
  - exists nojunk, [L 5; St 7; L 5; L 5]. reflexivity.
  - reflexivity.
Defined.

(** X3. In a state of a run, once an address has been accessed, an access
    to the same address that follows immediately is a hit, whatever the two
    operations are. *)
Theorem second_access_hits (s E b : Z) (st st' : state) (addr : Z)
    (operation operation' : ascii) (o : outcome) :
  defined_geometry s E b ->
  reachable s E b st ->
  updateData s b addr operation st = Some (o, st') ->
  exists st'', updateData s b addr operation' st' = Some (Hit, st'').
Proof.
  intros Hg Hreach Hu.
  destruct (reachable_wf s E b st Hg Hreach) as (Hwf & _).
  destruct (decode_row s E b (cache st) addr Hg Hwf)
    as (set & t & row & Hd & Hrow & _ & Hne).
  rewrite (updateData_unfold s b st addr operation set t row Hd Hrow) in Hu.
  injection Hu as _ Hst.
  destruct (updateData_set_touch b row t operation (stats st) Hne)
    as (i & new & Hi & Htouch & Hv & Htag & _).
  set (row' := touch row i new).
  assert (cache st' !! Z.to_nat set = Some row') as Hrow'.
  { rewrite <- Hst. simpl. rewrite Htouch.
    apply list_lookup_insert_eq. by eapply lookup_lt_Some. }
  assert (row' !! i = Some new) as Hnew.
  { unfold row'. rewrite touch_lookup.
    destruct (lookup_lt_is_Some_2 row i Hi) as [l ->]. simpl. by case_decide. }
  destruct (list_find_elem_of (line_hit t) row' new) as [[i' l'] Hfind].
  { apply list_elem_of_lookup. eauto. }
  { done. }
  eexists.
  rewrite (updateData_unfold s b st' addr operation' set t row' Hd Hrow').
  by rewrite (updateData_set_hit b row' t operation' _ i' l' Hfind).
Qed.

Lemma second_access_hits_witness :
  let st' := mkState [[mkLine 0 0 0 0]; [mkLine 1 1 1 0]] (mkStats 0 1 0 2 0) in
  updateData 1 1 6 "S"%char (init_state 1 1 nojunk) = Some (Miss, st') /\
  exists st'', updateData 1 1 6 "L"%char st' = Some (Hit, st'').
Proof.
  intros st'. split; [reflexivity|].
  apply (second_access_hits 1 1 1 (init_state 1 1 nojunk) st' 6 "S"%char "L"%char Miss).
  - unfold defined_geometry. lia.
  - exists nojunk, []. reflexivity.
  - reflexivity.
Defined.

(** ** Misses, evictions and the lines in use *)

Lemma Zsum_fmap_touch (f : cacheLine -> Z) (set : list cacheLine) (i : nat)
    (l new : cacheLine) :
  (forall x v, f (set_lastUsed v x) = f x) ->
  set !! i = Some l ->
  Zsum (f <$> touch set i new) = Zsum (f <$> set) - f l + f new.
Proof.
  intros Hf Hi.
  rewrite <- (Zsum_insert (f <$> set) i (f l)) by (by rewrite list_lookup_fmap, Hi).
  f_equal. apply list_eq. intros j.
  rewrite list_lookup_fmap, touch_lookup.
  destruct (decide (j = i)) as [->|Hne].
  - rewrite list_lookup_insert_eq, Hi; [done|].
    rewrite length_fmap. by eapply lookup_lt_Some.
  - rewrite list_lookup_insert_ne, list_lookup_fmap by done.
    destruct (set !! j); simpl; [|done]. by rewrite Hf.
Qed.

Lemma Zsum_fmap_insert {A : Type} (f : A -> Z) (c : list A) (k : nat) (x y : A) :
  c !! k = Some x ->
  Zsum (f <$> <[k:=y]> c) = Zsum (f <$> c) - f x + f y.
Proof.
  intros Hk. rewrite list_fmap_insert.
  apply Zsum_insert. by rewrite list_lookup_fmap, Hk.
Qed.

Lemma valid_lines_range (s E : Z) (c : cache_t) :
  0 <= s -> 1 <= E -> wf_cache s E c -> 0 <= valid_lines c <= E * 2 ^ s.
Proof.
  intros Hs HE (Hlen & Hsets). unfold valid_lines.
  assert (0 < 2 ^ s) by (apply Z.pow_pos_nonneg; lia).
  pose proof (Zsum_bounds (set_valid_lines <$> c) E) as HB.
  rewrite length_fmap, Hlen, Z2Nat.id in HB by lia.
  replace (E * 2 ^ s) with (2 ^ s * E) by lia.
  apply HB. apply Forall_fmap. eapply Forall_impl; [|exact Hsets].
  intros row (Hrow & _). simpl. unfold set_valid_lines.
  pose proof (Zsum_bounds (line_valid_count <$> row) 1) as Hr.
  rewrite length_fmap, Hrow, Z2Nat.id in Hr by lia.
  assert (Forall (fun x => 0 <= x <= 1) (line_valid_count <$> row)) as Hall.
  { apply Forall_fmap, Forall_forall. intros l _. simpl.
    unfold line_valid_count. destruct (valid l =? 1); lia. }
  specialize (Hr Hall). lia.
Qed.

(** What an access does to the three counters, read as the exact counts
    [h], [m] and [e] reduced to [unsigned long], and to the number of valid
    lines of its set. *)
Lemma updateData_set_tally (E b : Z) (set : list cacheLine) (t : Z)
    (operation : ascii) (st : csim_stats_t) (h m e : Z) :
  wf_set E set -> set <> [] ->
  hits st = ulong h -> misses st = ulong m -> evictions st = ulong e ->
  exists dh dm de,
    hits (updateData_set b set t operation st).2 = ulong (h + dh) /\
    misses (updateData_set b set t operation st).2 = ulong (m + dm) /\
    evictions (updateData_set b set t operation st).2 = ulong (e + de) /\
    set_valid_lines (updateData_set b set t operation st).1.2 =
      set_valid_lines set + dm - de /\
    0 <= dh /\ 0 <= de <= dm /\ dh + dm = 1.
Proof.
  intros (_ & Hall) Hne Hh Hm He. rewrite Forall_lookup in Hall.
  assert (forall x v, line_valid_count (set_lastUsed v x) = line_valid_count x)
    as Haged by done.
  destruct (access_cases set t Hne)
    as [(i & l & Hhit)|[(Hmiss & i & l & Hfree)|(Hmiss & Hfull & l & Hv)]].
  - rewrite (updateData_set_hit b _ _ _ _ i l Hhit). simpl.
    apply list_find_Some in Hhit as (Hi & (Hval & _) & _).
    exists 1, 0, 0. unfold set_valid_lines.
    rewrite (Zsum_fmap_touch _ set i l) by done.
    unfold line_valid_count at 2 3. simpl. rewrite Hval. simpl.
    rewrite !Z.add_0_r.
    destruct (_ && _); simpl; rewrite Hh, ulong_add_l; split_and!; auto; lia.
  - rewrite (updateData_set_free b _ _ _ _ i l Hmiss Hfree). simpl.
    apply list_find_Some in Hfree as (Hi & Hval & _). unfold line_free in Hval.
    exists 0, 1, 0. unfold set_valid_lines.
    rewrite (Zsum_fmap_touch _ set i l) by done.
    unfold line_valid_count at 2 3. simpl. rewrite Hval. simpl.
    rewrite !Z.add_0_r.
    destruct (is_store operation); simpl; rewrite Hm, ulong_add_l;
      split_and!; auto; lia.
  - rewrite (updateData_set_full b _ _ _ _ l Hmiss Hfull Hv). simpl.
    assert (valid l = 1) as Hval.
    { destruct (Hall _ _ Hv) as ([H0|H1] & _); [|done].
      rewrite list_find_None, Forall_lookup in Hfull. by destruct (Hfull _ _ Hv). }
    exists 0, 1, 1. unfold set_valid_lines.
    rewrite (Zsum_fmap_touch _ set _ l) by done.
    unfold line_valid_count at 2 3. simpl. rewrite Hval. simpl.
    rewrite !Z.add_0_r.
    destruct (is_store operation), (dirty l =? 0); simpl;
      rewrite Hm, He, !ulong_add_l; split_and!; auto; lia.
Qed.

Section Tally.

Variables (s E b : Z).
Hypothesis Hg : defined_geometry s E b.

Lemma run_tally (trace : list traceRecord) (st : state) (h m e : Z) :
  wf_state s E b st ->
  hits (stats st) = ulong h -> misses (stats st) = ulong m ->
  evictions (stats st) = ulong e ->
  0 <= h -> 0 <= e -> m - e = valid_lines (cache st) ->
  exists st' h' m' e',
    run s b trace st = Some st' /\ wf_state s E b st' /\
    hits (stats st') = ulong h' /\ misses (stats st') = ulong m' /\
    evictions (stats st') = ulong e' /\
    0 <= h' /\ 0 <= e' /\ m' - e' = valid_lines (cache st') /\
    h' + m' = h + m + count_LS trace.
Proof.
  revert st h m e. induction trace as [|r rest IH]; intros st h m e Hwf Hh Hm He Hh0 He0 Hv.
  - exists st, h, m, e. simpl. unfold count_LS. simpl. split_and!; try done; lia.
  - rewrite count_LS_cons. simpl. unfold step.
    destruct (is_load (rec_op r) || is_store (rec_op r)).
    + destruct (updateData_wf s E b st (rec_addr r) (rec_op r) Hg Hwf)
        as (o & st1 & Hu & Hwf1).
      rewrite Hu. pose proof Hwf as (Hc & _).
      destruct (decode_row s E b (cache st) (rec_addr r) Hg Hc)
        as (set & t & row & Hd & Hrow & Hwrow & Hne).
      rewrite (updateData_unfold s b st _ _ set t row Hd Hrow) in Hu.
      injection Hu as _ Hst1.
      destruct (updateData_set_tally E b row t (rec_op r) (stats st) h m e
                  Hwrow Hne Hh Hm He)
        as (dh & dm & de & Hh1 & Hm1 & He1 & Hv1 & ? & ? & ?).
      destruct (IH st1 (h + dh) (m + dm) (e + de) Hwf1)
        as (st' & h' & m' & e' & Hrun & ? & ? & ? & ? & ? & ? & ? & ?);
        try (rewrite <- Hst1; simpl; done); try lia.
      { rewrite <- Hst1. simpl. unfold valid_lines.
        rewrite (Zsum_fmap_insert set_valid_lines _ _ row) by done.
        rewrite Hv1. unfold valid_lines in Hv. lia. }
      exists st', h', m', e'. split_and!; try done; lia.
    + destruct (IH st h m e Hwf Hh Hm He Hh0 He0 Hv)
        as (st' & h' & m' & e' & Hrun & ? & ? & ? & ? & ? & ? & ? & ?).
      exists st', h', m', e'. split_and!; try done; lia.
Qed.

End Tally.

Lemma valid_lines_invalid (c : cache_t) :
  Forall (Forall (fun l => valid l = 0)) c -> valid_lines c = 0.
Proof.
  unfold valid_lines. induction 1 as [|row c Hrow _ IH]; [done|].
  rewrite fmap_cons, Zsum_cons, IH.
  assert (set_valid_lines row = 0) as ->; [|done].
  unfold set_valid_lines. induction Hrow as [|l row Hl _ IHr]; [done|].
  rewrite fmap_cons, Zsum_cons, IHr. unfold line_valid_count. by rewrite Hl.
Qed.

(** X4. After any trace with fewer than [2^64] load and store records, the
    misses are the evictions plus the lines in use: every miss either fills
    an invalid line or evicts.  Hence [evictions <= misses], and the misses
    exceed the evictions by at most the [E * 2^s] lines of the cache. *)
Theorem misses_are_evictions_plus_lines_in_use (s E b : Z)
    (junk : nat -> nat -> Z) (trace : list traceRecord) :
  defined_geometry s E b ->
  count_LS trace < 2 ^ 64 ->
  exists st,
    run s b trace (init_state s E junk) = Some st /\
    misses (stats st) = evictions (stats st) + valid_lines (cache st) /\
    0 <= evictions (stats st) <= misses (stats st) /\
    misses (stats st) <= evictions (stats st) + E * 2 ^ s /\
    misses (stats st) <= count_LS trace.
Proof.
  intros Hg Hsmall.
  destruct (run_tally s E b Hg trace (init_state s E junk) 0 0 0)
    as (st & h & m & e & Hrun & (Hwf & _) & Hh & Hm & He & Hh0 & He0 & Hv & Hsum);
    try done; try (by apply init_wf).
  { simpl. rewrite valid_lines_invalid; [done|]. unfold init.
    apply Forall_forall. intros row [i [<- _]]%in_map_iff.
    apply Forall_forall. by intros l [j [<- _]]%in_map_iff. }
  destruct Hg as ((Hs & _) & HE & _).
  pose proof (valid_lines_range s E (cache st) Hs HE Hwf) as Hr.
  exists st. split; [done|].
  rewrite Hm, He, !ulong_small by lia. lia.
Qed.

Lemma misses_are_evictions_plus_lines_in_use_witness :
  exists st,
    run 1 0 [L 0; L 2; St 4; L 1; L 4] (init_state 1 1 nojunk) = Some st /\
    misses (stats st) = 4 /\ evictions (stats st) = 2 /\
    valid_lines (cache st) = 2.
Proof.
  destruct (misses_are_evictions_plus_lines_in_use 1 1 0 nojunk
              [L 0; L 2; St 4; L 1; L 4])
    as (st & Hrun & Hm & _).
  - unfold defined_geometry. lia.
  - vm_compute. reflexivity.
  - exists st. split; [exact Hrun|].
    vm_compute in Hrun. injection Hrun as <-. repeat split.
Defined.

(** ** The run does not depend on what [init] leaves in the tags *)

Lemma erase_valid (l : cacheLine) : valid l = 1 -> erase l = l.
Proof. intros Hv. unfold erase. by rewrite Hv. Qed.

Lemma erase_fields (l : cacheLine) :
  valid (erase l) = valid l /\ dirty (erase l) = dirty l /\
  lastUsed (erase l) = lastUsed l.
Proof. unfold erase. by destruct (valid l =? 1). Qed.

Lemma erase_aged (l : cacheLine) (v : Z) :
  erase (set_lastUsed v l) = set_lastUsed v (erase l).
Proof. unfold erase. simpl. by destruct (valid l =? 1). Qed.

Lemma touch_erase (set : list cacheLine) (i : nat) (new : cacheLine) :
  valid new = 1 ->
  touch (erase <$> set) i new = erase <$> touch set i new.
Proof.
  intros Hv. apply list_eq. intros j.
  rewrite list_lookup_fmap, !touch_lookup, list_lookup_fmap.
  destruct (set !! j) as [l|]; simpl; [|done].
  case_decide; [by rewrite erase_valid|].
  rewrite erase_aged. by destruct (erase_fields l) as (_ & _ & ->).
Qed.

Lemma list_find_erase (P : cacheLine -> Prop) `{!forall l, Decision (P l)}
    (set : list cacheLine) :
  (forall l, P (erase l) <-> P l) ->
  list_find P (erase <$> set) = prod_map id erase <$> list_find P set.
Proof.
  intros HP. rewrite list_find_fmap. f_equal. by apply list_find_ext.
Qed.

Lemma fold_left_pointwise {A B : Type} (f g : A -> B -> A) (l : list B) (a : A) :
  (forall x y, f x y = g x y) -> fold_left f l a = fold_left g l a.
Proof.
  intros Hfg. revert a. induction l as [|y l IH]; intros a; simpl; [done|].
  by rewrite Hfg, IH.
Qed.

Lemma findLeastRecentlyUsed_erase (set : list cacheLine) :
  findLeastRecentlyUsed (erase <$> set) = findLeastRecentlyUsed set.
Proof.
  unfold findLeastRecentlyUsed. rewrite length_fmap.
  apply fold_left_pointwise. intros m i.
  assert (forall k, lastUsedAt (erase <$> set) k = lastUsedAt set k) as Hlu.
  { intros k. unfold lastUsedAt. rewrite list_lookup_fmap.
    destruct (set !! k) as [l|]; simpl; [|done]. apply erase_fields. }
  by rewrite !Hlu.
Qed.

Lemma updateData_set_erase (b : Z) (set : list cacheLine) (t : Z)
    (operation : ascii) (st : csim_stats_t) :
  updateData_set b (erase <$> set) t operation st =
  ((updateData_set b set t operation st).1.1,
   erase <$> (updateData_set b set t operation st).1.2,
   (updateData_set b set t operation st).2).
Proof.
  destruct (decide (set = [])) as [->|Hne].
  { unfold updateData_set, updateCache, markStore. simpl.
    by destruct (is_store operation). }
  assert (forall l, line_hit t (erase l) <-> line_hit t l) as Hhit_iff.
  { intros l. unfold line_hit, erase.
    destruct (Z.eqb_spec (valid l) 1); simpl; [done|]. tauto. }
  assert (forall l, line_free (erase l) <-> line_free l) as Hfree_iff.
  { intros l. unfold line_free. by destruct (erase_fields l) as (-> & _). }
  destruct (access_cases set t Hne)
    as [(i & l & Hhit)|[(Hmiss & i & l & Hfree)|(Hmiss & Hfull & l & Hv)]].
  - rewrite (updateData_set_hit b set _ _ _ i l Hhit).
    pose proof Hhit as (_ & (Hval & _) & _)%list_find_Some.
    rewrite (updateData_set_hit b (erase <$> set) _ _ _ i l).
    + simpl. by rewrite touch_erase.
    + rewrite list_find_erase, Hhit by done. simpl. by rewrite erase_valid.
  - rewrite (updateData_set_free b set _ _ _ i l Hmiss Hfree).
    rewrite (updateData_set_free b (erase <$> set) _ _ _ i (erase l)).
    + simpl. by rewrite touch_erase.
    + by rewrite list_find_erase, Hmiss.
    + by rewrite list_find_erase, Hfree.
  - rewrite (updateData_set_full b set _ _ _ l Hmiss Hfull Hv).
    rewrite (updateData_set_full b (erase <$> set) _ _ _ (erase l)).
    + simpl. rewrite findLeastRecentlyUsed_erase, touch_erase by done.
      by destruct (erase_fields l) as (_ & -> & _).
    + by rewrite list_find_erase, Hmiss.
    + by rewrite list_find_erase, Hfull.
    + by rewrite findLeastRecentlyUsed_erase, list_lookup_fmap, Hv.
Qed.

Lemma step_erase (s b : Z) (r : traceRecord) (st : state) :
  step s b r (erase_state st) = erase_state <$> step s b r st.
Proof.
  unfold step. destruct (_ || _); [|done].
  unfold updateData. destruct (decode s b (rec_addr r)) as [[set t]|]; [|done].
  unfold erase_state at 1. simpl. rewrite list_lookup_fmap.
  destruct (cache st !! Z.to_nat set) as [row|]; simpl; [|done].
  rewrite updateData_set_erase.
  destruct (updateData_set b row t (rec_op r) (stats st)) as [[o row'] st'].
  simpl. unfold erase_state. simpl. by rewrite list_fmap_insert.
Qed.

Lemma run_erase (s b : Z) (trace : list traceRecord) (st : state) :
  run s b trace (erase_state st) = erase_state <$> run s b trace st.
Proof.
  revert st. induction trace as [|r rest IH]; intros st; simpl; [done|].
  rewrite step_erase. destruct (step s b r st) as [st1|]; simpl; [|done].
  apply IH.
Qed.

Lemma init_erase (s E : Z) (junk : nat -> nat -> Z) :
  erase_state (init_state s E junk) = init_state s E (fun _ _ => 0).
Proof.
  unfold erase_state, init_state, init. simpl. f_equal.
  rewrite <- list_fmap_compose. apply list_fmap_ext. intros _ i _. simpl.
  rewrite <- list_fmap_compose. by apply list_fmap_ext.
Qed.

(** X5. [init] leaves the [tag] of every line as [malloc] returned it.  That
    content never shows: two runs of the same trace from caches that differ
    only in it give the same statistics, and the same cache up to the tags
    of the lines that are still invalid. *)
Theorem run_ignores_uninitialised_tags (s E b : Z) (junk1 junk2 : nat -> nat -> Z)
    (trace : list traceRecord) :
  erase_state <$> run s b trace (init_state s E junk1) =
  erase_state <$> run s b trace (init_state s E junk2) /\
  stats <$> run s b trace (init_state s E junk1) =
  stats <$> run s b trace (init_state s E junk2).
Proof.
  assert (erase_state <$> run s b trace (init_state s E junk1) =
          erase_state <$> run s b trace (init_state s E junk2)) as Heq.
  { by rewrite <- !run_erase, !init_erase. }
  split; [done|].
  destruct (run s b trace (init_state s E junk1)) as [st1|],
           (run s b trace (init_state s E junk2)) as [st2|]; simpl in *; try done.
  injection Heq as _ Hst. by rewrite Hst.
Qed.

(** ** Traces without stores *)

Lemma updateData_set_clean (b : Z) (set : list cacheLine) (t : Z)
    (operation : ascii) (st : csim_stats_t) :
  is_store operation = false -> set <> [] ->
  Forall (fun l => dirty l = 0) set ->
  Forall (fun l => dirty l = 0) (updateData_set b set t operation st).1.2 /\
  dirty_bytes (updateData_set b set t operation st).2 = dirty_bytes st /\
  dirty_evictions (updateData_set b set t operation st).2 = dirty_evictions st.
Proof.
  intros Hop Hne Hclean.
  assert (forall i new, dirty new = 0 ->
            Forall (fun l => dirty l = 0) (touch set i new)) as Htouch.
  { intros i new Hnew. apply Forall_lookup.
    intros j l' (l & Hl & ->)%touch_lookup_Some.
    case_decide; [done|]. simpl. rewrite Forall_lookup in Hclean. by eapply Hclean. }
  rewrite Forall_lookup in Hclean.
  destruct (access_cases set t Hne)
    as [(i & l & Hhit)|[(Hmiss & i & l & Hfree)|(Hmiss & Hfull & l & Hv)]].
  - rewrite (updateData_set_hit b _ _ _ _ i l Hhit). simpl. rewrite Hop. simpl.
    apply list_find_Some in Hhit as (Hi & _).
    split; [|done]. apply Htouch. unfold hit_line. rewrite Hop. simpl.
    by eapply Hclean.
  - rewrite (updateData_set_free b _ _ _ _ i l Hmiss Hfree). simpl. rewrite Hop.
    split; [|done]. apply Htouch. unfold installed_line. by rewrite Hop.
  - rewrite (updateData_set_full b _ _ _ _ l Hmiss Hfull Hv). simpl. rewrite Hop.
    rewrite (Hclean _ _ Hv). simpl.
    split; [|done]. apply Htouch. unfold installed_line. by rewrite Hop.
Qed.

(** X6. A trace without any store leaves the cache without a dirty line
    and both [dirty_bytes] and [dirty_evictions] at 0, however many lines it
    evicts. *)
Theorem loads_leave_nothing_dirty (s E b : Z) (junk : nat -> nat -> Z)
    (trace : list traceRecord) :
  defined_geometry s E b ->
  Forall (fun r => is_store (rec_op r) = false) trace ->
  exists st,
    run s b trace (init_state s E junk) = Some st /\
    all_clean (cache st) /\
    dirty_bytes (stats st) = 0 /\ dirty_evictions (stats st) = 0.
Proof.
  intros Hg Hloads.
  assert (forall st0,
            wf_state s E b st0 -> all_clean (cache st0) ->
            dirty_bytes (stats st0) = 0 -> dirty_evictions (stats st0) = 0 ->
            exists st, run s b trace st0 = Some st /\ all_clean (cache st) /\
                       dirty_bytes (stats st) = 0 /\ dirty_evictions (stats st) = 0)
    as Hgen.
  { induction Hloads as [|r rest Hr _ IH]; intros st0 Hwf Hclean Hdb Hde.
    - exists st0. by simpl.
    - simpl. unfold step. destruct (_ || _); [|by apply IH].
      destruct (updateData_wf s E b st0 (rec_addr r) (rec_op r) Hg Hwf)
        as (o & st1 & Hu & Hwf1).
      rewrite Hu. pose proof Hwf as (Hc & _).
      destruct (decode_row s E b (cache st0) (rec_addr r) Hg Hc)
        as (set & t & row & Hd & Hrow & _ & Hne).
      rewrite (updateData_unfold s b st0 _ _ set t row Hd Hrow) in Hu.
      injection Hu as _ Hst1.
      assert (Forall (fun l => dirty l = 0) row) as Hrowclean.
      { unfold all_clean in Hclean. rewrite Forall_lookup in Hclean.
        by eapply Hclean. }
      destruct (updateData_set_clean b row t (rec_op r) (stats st0) Hr Hne Hrowclean)
        as (Hrow' & Hdb' & Hde').
      apply IH; [done|..]; rewrite <- Hst1; simpl; [|congruence..].
      by apply Forall_insert. }
  apply Hgen; [by apply init_wf| |done|done].
  unfold init_state, init. simpl.
  apply Forall_forall. intros row [i [<- _]]%in_map_iff.
  apply Forall_forall. by intros l [j [<- _]]%in_map_iff.
Qed.

Lemma loads_leave_nothing_dirty_witness :
  exists st,
    run 0 2 [L 0; L 4; L 8; mkRecord "M"%char 0 1; L 0] (init_state 0 2 nojunk) = Some st /\
    evictions (stats st) = 2 /\
    all_clean (cache st) /\
    dirty_bytes (stats st) = 0 /\ dirty_evictions (stats st) = 0.
Proof.
  destruct (loads_leave_nothing_dirty 0 2 2 nojunk
              [L 0; L 4; L 8; mkRecord "M"%char 0 1; L 0])
    as (st & Hrun & Hclean).
  - unfold defined_geometry. lia.
  - repeat constructor.
  - exists st. split; [exact Hrun|]. split; [|exact Hclean].
    vm_compute in Hrun. injection Hrun as <-. reflexivity.
Defined.

(** * parseArgument *)

Section ParseArgumentFacts.

Variable F : Type.
Variable atoi : list ascii -> Z.
Variable fopen : list ascii -> option F.

(** The loop prints only when it exits. *)
Lemma parseOptions_returns_out (opts : list (ascii * list ascii)) (g g' : globals F)
    (out out' : list message) :
  parseOptions F atoi fopen opts g out = Returns g' out' -> out' = out.
Proof.
  revert g. induction opts as [|[opt optarg] rest IH]; intros g; simpl.
  - by intros [= _ <-].
  - repeat (destruct (Ascii.eqb opt _)); try apply IH; try done.
    destruct (fopen optarg); [apply IH|done].
Qed.

(** Without an option [c] among [s], [E], [b] and [t], the loop leaves the
    global that [c] sets as it was. *)
Lemma parseOptions_untouched (c : ascii) (opts : list (ascii * list ascii))
    (g g' : globals F) (out out' : list message) :
  Forall (fun o => o.1 <> c) opts ->
  parseOptions F atoi fopen opts g out = Returns g' out' ->
  (c = "s"%char -> g_s g' = g_s g) /\
  (c = "E"%char -> g_E g' = g_E g) /\
  (c = "b"%char -> g_b g' = g_b g) /\
  (c = "t"%char -> g_traceFile g' = g_traceFile g).
Proof.
  intros Hno. revert g. induction Hno as [|[opt optarg] rest Hopt _ IH]; intros g.
  - simpl. by intros [= <- _].
  - simpl in *.
    destruct (Ascii.eqb_spec opt "s") as [->|_].
    { intros Hr. destruct (IH _ Hr) as (Hs & HE & Hb & Ht).
      split_and!; intros ->; auto; done. }
    destruct (Ascii.eqb_spec opt "E") as [->|_].
    { intros Hr. destruct (IH _ Hr) as (Hs & HE & Hb & Ht).
      split_and!; intros ->; auto; done. }
    destruct (Ascii.eqb_spec opt "b") as [->|_].
    { intros Hr. destruct (IH _ Hr) as (Hs & HE & Hb & Ht).
      split_and!; intros ->; auto; done. }
    destruct (Ascii.eqb_spec opt "t") as [->|_].
    { destruct (fopen optarg); [|done].
      intros Hr. destruct (IH _ Hr) as (Hs & HE & Hb & Ht).
      split_and!; intros ->; auto; done. }
    destruct (Ascii.eqb_spec opt "h") as [->|_]; [done|].
    destruct (Ascii.eqb_spec opt "v") as [->|_]; [|done].
    intros Hr. destruct (IH _ Hr) as (Hs & HE & Hb & Ht).
    split_and!; intros ->; auto.
Qed.

(** X7. [parseArgument] has a result unless the test reaches [s + b] with a
    sum that is not an [int] (that is with [s >= 0], [E >= 1], [b >= 0] and
    [s + b > 2^31 - 1], where the addition is undefined in C).  When it has
    one and that is a return, nothing has been printed and the globals
    satisfy [s >= 0], [E >= 1], [b >= 0] and [s + b <= 64]: the bound that is
    let through is 64, one more than the largest count the shifts of
    [updateData] are defined for. *)
Theorem parseArgument_returns_checked_geometry (opts : list (ascii * list ascii)) :
  (forall g out,
     parseArgument F atoi fopen opts = Some (Returns g out) ->
     out = [] /\ accepted_geometry (g_s g) (g_E g) (g_b g)) /\
  (parseArgument F atoi fopen opts = None <->
   exists g,
     parseOptions F atoi fopen opts globals0 [] = Returns g [] /\
     0 <= g_s g /\ 1 <= g_E g /\ 0 <= g_b g /\ 2 ^ 31 - 1 < g_s g + g_b g).
Proof.
  unfold parseArgument, add_int, accepted_geometry, INT_MAX.
  destruct (parseOptions F atoi fopen opts globals0 []) as [g' out'|status out']
    eqn:Hloop.
  - apply parseOptions_returns_out in Hloop as ->.
    destruct (Z.ltb_spec (g_s g') 0); simpl.
    { split; [done|]. split; [done|]. intros (g & [= <-] & ?). lia. }
    destruct (Z.leb_spec (g_E g') 0); simpl.
    { split; [done|]. split; [done|]. intros (g & [= <-] & ?). lia. }
    destruct (Z.ltb_spec (g_b g') 0); simpl.
    { split; [done|]. split; [done|]. intros (g & [= <-] & ?). lia. }
    destruct (Z.leb_spec (- 2 ^ 31) (g_s g' + g_b g')); [|lia].
    destruct (Z.leb_spec (g_s g' + g_b g') (2 ^ 31 - 1)); simpl.
    + destruct (Z.gtb_spec (g_s g' + g_b g') 64).
      * split; [done|]. split; [done|]. intros (g & [= <-] & ?). lia.
      * split.
        -- intros g out [= <- <-]. split; [done|lia].
        -- split; [done|]. intros (g & [= <-] & ?). lia.
    + split; [done|]. split; [|done]. intros _. exists g'. split; [done|lia].
  - split; [done|]. split; [done|]. by intros (g & ? & _).
Qed.

(** X8. If one of the options [-s], [-E], [-b] is missing, [parseArgument]
    does not return: it calls [exit] (its global keeps the initial -1, and
    the test rejects it before [s + b] is looked at). *)
Theorem parseArgument_needs_s_E_b (c : ascii) (opts : list (ascii * list ascii)) :
  c = "s"%char \/ c = "E"%char \/ c = "b"%char ->
  Forall (fun o => o.1 <> c) opts ->
  exists status out,
    parseArgument F atoi fopen opts = Some (Exits status out) /\
    (status = 0 \/ status = 1).
Proof.
  intros Hc Hno. unfold parseArgument.
  destruct (parseOptions F atoi fopen opts globals0 []) as [g out|status out] eqn:Hloop.
  - destruct (parseOptions_untouched c opts globals0 g [] out Hno Hloop)
      as (Hs & HE & Hb & _).
    assert ((g_s g <? 0) || (g_E g <=? 0) || (g_b g <? 0) = true) as ->.
    { destruct Hc as [->|[->| ->]].
      - by rewrite Hs.
      - rewrite HE by done. simpl. by rewrite orb_true_r.
      - rewrite Hb by done. simpl. by rewrite orb_true_r. }
    eauto.
  - exists status, out. split; [done|].
    clear Hno. revert Hloop. generalize (@globals0 F). generalize (@nil message).
    induction opts as [|[opt optarg] rest IH]; intros out0 g0; simpl; [done|].
    repeat (destruct (Ascii.eqb opt _)); try apply IH;
      try (intros [= <- _]; auto).
    destruct (fopen optarg); [apply IH|]. intros [= <- _]. auto.
Qed.

(** X9. The test at the end of [parseArgument] does not look at
    [traceFile]: without an option [-t], a call that returns leaves
    [traceFile] at [NULL], which [main] then hands to [fgets]. *)
Theorem parseArgument_does_not_need_t (opts : list (ascii * list ascii))
    (g : globals F) (out : list message) :
  Forall (fun o => o.1 <> "t"%char) opts ->
  parseArgument F atoi fopen opts = Some (Returns g out) ->
  g_traceFile g = None.
Proof.
  intros Hno. unfold parseArgument.
  destruct (parseOptions F atoi fopen opts globals0 []) as [g' out'|] eqn:Hloop;
    [|done].
  destruct (parseOptions_untouched "t" opts globals0 g' [] out' Hno Hloop)
    as (_ & _ & _ & Ht).
  destruct (_ || _); [done|]. destruct (add_int _ _); [|done].
  destruct (_ >? _); [done|]. intros [= <- _]. by apply Ht.
Qed.

(** X10. An option [-h] that comes after options [-s], [-E], [-b], [-v]
    only ends the program with status 0 and the help message as its only
    output, whatever the values given and whatever follows. *)
Theorem parseArgument_help_wins (pre rest : list (ascii * list ascii))
    (harg : list ascii) :
  Forall (fun o => o.1 = "s"%char \/ o.1 = "E"%char \/ o.1 = "b"%char \/
                   o.1 = "v"%char) pre ->
  parseArgument F atoi fopen (pre ++ ("h"%char, harg) :: rest) =
  Some (Exits 0 [HelpMessage]).
Proof.
  intros Hpre. unfold parseArgument.
  assert (forall g, parseOptions F atoi fopen (pre ++ ("h"%char, harg) :: rest) g [] =
                    Exits 0 [HelpMessage]) as ->; [|done].
  induction Hpre as [|[opt optarg] pre Hopt _ IH]; intros g; [done|].
  simpl in *. destruct Hopt as [->|[->|[->| ->]]]; simpl; apply IH.
Qed.

End ParseArgumentFacts.

Lemma parseArgument_returns_checked_geometry_witness :
  let opts := [("s"%char, ["4"%char]); ("v"%char, []); ("E"%char, ["2"%char]);
               ("b"%char, ["6"%char; "0"%char]); ("t"%char, ["x"%char])] in
  parseArgument unit atoi_digits (fun _ => Some tt) opts =
    Some (Returns (mkGlobals 4 2 60 true (Some tt)) []) /\
  parseArgument unit (fun _ => 2 ^ 31 - 1) (fun _ => Some tt)
    [("s"%char, []); ("E"%char, []); ("b"%char, [])] = None /\
  accepted_geometry 4 2 60.
Proof.
  intros opts. split; [reflexivity|]. split.
  { apply (proj2 (parseArgument_returns_checked_geometry unit (fun _ => 2 ^ 31 - 1)
                    (fun _ => Some tt) [("s"%char, []); ("E"%char, []); ("b"%char, [])])).
    eexists. split; [reflexivity|]. simpl. lia. }
  apply (proj1 (parseArgument_returns_checked_geometry unit atoi_digits
                  (fun _ => Some tt) opts) (mkGlobals 4 2 60 true (Some tt)) []).
  reflexivity.
Defined.

Lemma parseArgument_needs_s_E_b_witness :
  exists status out,
    parseArgument unit atoi_digits (fun _ => Some tt)
      [("s"%char, ["4"%char]); ("b"%char, ["4"%char]); ("t"%char, ["x"%char])] =
      Some (Exits status out) /\
    (status = 0 \/ status = 1).
Proof.
  apply (parseArgument_needs_s_E_b unit atoi_digits (fun _ => Some tt) "E"%char).
  - right. left. reflexivity.
  - repeat constructor; discriminate.
Defined.

Lemma parseArgument_does_not_need_t_witness :
  let opts := [("s"%char, ["4"%char]); ("E"%char, ["1"%char]); ("b"%char, ["4"%char])] in
  parseArgument unit atoi_digits (fun _ => Some tt) opts =
    Some (Returns (mkGlobals 4 1 4 false None) []) /\
  g_traceFile (mkGlobals 4 1 4 false (None : option unit)) = None.
Proof.
  intros opts. split; [reflexivity|].
  apply (parseArgument_does_not_need_t unit atoi_digits (fun _ => Some tt) opts _ []).
  - repeat constructor; discriminate.
  - reflexivity.
Defined.

Lemma parseArgument_help_wins_witness :
  parseArgument unit atoi_digits (fun _ => None)
    ([("s"%char, ["9"%char; "9"%char]); ("v"%char, [])] ++
     ("h"%char, []) :: [("t"%char, ["x"%char]); ("q"%char, [])]) =
  Some (Exits 0 [HelpMessage]).
Proof.
  apply (parseArgument_help_wins unit atoi_digits (fun _ => None)).
  constructor; [left; reflexivity|].
  constructor; [right; right; right; reflexivity|]. constructor.
Defined.

(** * trans.c *)

Lemma for_range_inv {T : Type} (P : nat -> T -> Prop) (body : nat -> T -> result T)
    (len start : nat) (st : T) :
  P start st ->
  (forall k st0, (start <= k < start + len)%nat -> P k st0 ->
     exists st1, body k st0 = Ok st1 /\ P (S k) st1) ->
  exists st', for_range start len body st = Ok st' /\ P (start + len)%nat st'.
Proof.
  revert start st. induction len as [|len IH]; intros start st HP Hbody; simpl.
  - exists st. by rewrite Nat.add_0_r.
  - destruct (Hbody start st ltac:(lia) HP) as (st1 & -> & HP1). simpl.
    destruct (IH (S start) st1 HP1) as (st' & Hfor & HP').
    { intros k st0 Hk. apply Hbody. lia. }
    exists st'. split; [done|]. by replace (start + S len)%nat with (S start + len)%nat by lia.
Qed.

Section TransposeFacts.

Variable D : Type.

Lemma at2_Some (r c : nat) (X : list (list D)) (i j : nat) :
  dims D r c X -> (i < r)%nat -> (j < c)%nat -> is_Some (at2 D X i j).
Proof.
  intros (Hlen & Hrows) Hi Hj. unfold at2.
  destruct (lookup_lt_is_Some_2 X i) as [row Hrow]; [lia|]. rewrite Hrow.
  apply lookup_lt_is_Some_2. rewrite Forall_lookup in Hrows.
  by rewrite (Hrows i row Hrow).
Qed.

Lemma at2_None (r c : nat) (X : list (list D)) (i j : nat) :
  dims D r c X -> ~ (i < r /\ j < c)%nat -> at2 D X i j = None.
Proof.
  intros (Hlen & Hrows) Hout. unfold at2.
  destruct (X !! i) as [row|] eqn:Hrow; [|done].
  apply lookup_ge_None. rewrite Forall_lookup in Hrows.
  rewrite (Hrows i row Hrow). apply lookup_lt_Some in Hrow. lia.
Qed.

Lemma set2_Ok (r c : nat) (X : list (list D)) (i j : nat) (x : D) :
  dims D r c X -> (i < r)%nat -> (j < c)%nat ->
  exists X', set2 D X i j x = Ok X' /\ dims D r c X' /\
    forall i' j', at2 D X' i' j' =
                  if decide (i' = i /\ j' = j) then Some x else at2 D X i' j'.
Proof.
  intros (Hlen & Hrows) Hi Hj. unfold set2.
  destruct (lookup_lt_is_Some_2 X i) as [row Hrow]; [lia|]. rewrite Hrow.
  rewrite Forall_lookup in Hrows. pose proof (Hrows i row Hrow) as Hc.
  rewrite decide_True by lia. eexists. split; [done|]. split.
  - split; [by rewrite length_insert|]. apply Forall_insert.
    + by apply Forall_lookup.
    + by rewrite length_insert.
  - intros i' j'. unfold at2.
    destruct (decide (i' = i)) as [->|Hne].
    + rewrite list_lookup_insert_eq by lia. rewrite Hrow.
      destruct (decide (j' = j)) as [->|Hnj].
      * rewrite decide_True by done. apply list_lookup_insert_eq. lia.
      * rewrite decide_False by tauto. by apply list_lookup_insert_ne.
    + rewrite list_lookup_insert_ne by done. by rewrite decide_False by tauto.
Qed.

Lemma matrix_ext (r c : nat) (X Y : list (list D)) :
  dims D r c X -> dims D r c Y ->
  (forall i j, (i < r)%nat -> (j < c)%nat -> at2 D X i j = at2 D Y i j) -> X = Y.
Proof.
  intros (HlX & HrX) (HlY & HrY) Heq. apply list_eq. intros i.
  destruct (decide (i < r)%nat) as [Hi|Hi].
  - destruct (lookup_lt_is_Some_2 X i) as [rx Hrx]; [lia|].
    destruct (lookup_lt_is_Some_2 Y i) as [ry Hry]; [lia|].
    rewrite Hrx, Hry. f_equal. apply list_eq. intros j.
    rewrite Forall_lookup in HrX, HrY.
    destruct (decide (j < c)%nat) as [Hj|Hj].
    + specialize (Heq i j Hi Hj). unfold at2 in Heq. by rewrite Hrx, Hry in Heq.
    + rewrite !lookup_ge_None_2; [done|..].
      * rewrite (HrY i ry Hry). lia.
      * rewrite (HrX i rx Hrx). lia.
  - rewrite !lookup_ge_None_2; [done|lia|lia].
Qed.

(** The two nested loops of the transpose functions, for any body that
    copies [A[i][j]] to [B[j][i]] and keeps [R]. *)
Lemma copy_loops {T : Type} (proj : T -> list (list D)) (R : T -> Prop)
    (body : nat -> nat -> T -> result T) (M N : nat) (A : list (list D)) (st0 : T) :
  (forall i j st, (i < N)%nat -> (j < M)%nat -> dims D M N (proj st) -> R st ->
     exists st' x, body i j st = Ok st' /\ R st' /\
       at2 D A i j = Some x /\ set2 D (proj st) j i x = Ok (proj st')) ->
  dims D M N (proj st0) -> R st0 ->
  exists st',
    for_range 0 N (fun i st => for_range 0 M (body i) st) st0 = Ok st' /\
    R st' /\ dims D M N (proj st') /\
    forall j i, at2 D (proj st') j i =
                if decide (i < N /\ j < M)%nat then at2 D A i j
                else at2 D (proj st0) j i.
Proof.
  intros Hbody Hdims HR.
  destruct (for_range_inv
    (fun i st => R st /\ dims D M N (proj st) /\
       forall j' i', at2 D (proj st) j' i' =
                     if decide (i' < i /\ j' < M)%nat then at2 D A i' j'
                     else at2 D (proj st0) j' i')
    (fun i st => for_range 0 M (body i) st) N 0 st0) as (st' & Hfor & HR' & Hd' & Hat').
  - split; [done|]. split; [done|]. intros j' i'. by rewrite decide_False by lia.
  - intros i st1 Hi (HR1 & Hd1 & Hat1).
    destruct (for_range_inv
      (fun j st => R st /\ dims D M N (proj st) /\
         forall j' i', at2 D (proj st) j' i' =
                       if decide (i' = i /\ j' < j)%nat then at2 D A i j'
                       else at2 D (proj st1) j' i')
      (body i) M 0 st1) as (st2 & Hfor & HR2 & Hd2 & Hat2).
    + split; [done|]. split; [done|]. intros j' i'. by rewrite decide_False by lia.
    + intros j st Hj (HRs & Hds & Hats).
      destruct (Hbody i j st ltac:(lia) ltac:(lia) Hds HRs)
        as (st3 & x & Hb & HR3 & Hx & Hset).
      exists st3. split; [done|]. split; [done|].
      destruct (set2_Ok M N (proj st) j i x Hds ltac:(lia) ltac:(lia))
        as (X' & Hset' & Hd3 & Hat3).
      assert (X' = proj st3) as -> by congruence.
      split; [done|]. intros j' i'. rewrite Hat3, Hats.
      destruct (decide (j' = j /\ i' = i)) as [[-> ->]|Hn].
      * by rewrite decide_True by lia.
      * destruct (decide (i' = i /\ j' < j)%nat) as [[-> ?]|?].
        -- by rewrite decide_True by lia.
        -- by rewrite decide_False by lia.
    + exists st2. split; [done|]. split; [done|]. split; [done|].
      intros j' i'. rewrite Hat2, Hat1. simpl.
      destruct (decide (i' = i /\ j' < M)%nat) as [[-> ?]|?].
      * by rewrite decide_True by lia.
      * destruct (decide (i' < i /\ j' < M)%nat) as [?|?].
        -- by rewrite decide_True by lia.
        -- by rewrite decide_False by lia.
  - exists st'. by rewrite Nat.add_0_l in *.
Qed.

End TransposeFacts.

Section TransposeChecks.

Variable D : Type.
Variable dne : D -> D -> bool.

Lemma get2_at2 (X : list (list D)) (i j : nat) (x : D) :
  at2 D X i j = Some x -> get2 D X i j = Ok x.
Proof. intros H. unfold get2. by rewrite H. Qed.

Lemma is_transpose_row_spec (M N : nat) (A B : list (list D)) (i len j : nat) :
  dims D N M A -> dims D M N B -> (i < N)%nat -> (j + len <= M)%nat ->
  exists r, is_transpose_row D dne A B i j len = Ok r /\
    (r = true <->
     forall j' a b', (j <= j' < j + len)%nat ->
       at2 D A i j' = Some a -> at2 D B j' i = Some b' -> dne a b' = false).
Proof.
  intros HA HB Hi. revert j. induction len as [|len IH]; intros j Hj; simpl.
  - exists true. split; [done|]. split; [|done]. intros _ j' a b' Hj'. lia.
  - destruct (at2_Some D N M A i j HA Hi ltac:(lia)) as [a Ha].
    destruct (at2_Some D M N B j i HB ltac:(lia) Hi) as [b' Hb].
    rewrite (get2_at2 A i j a Ha), (get2_at2 B j i b' Hb). simpl.
    destruct (dne a b') eqn:Hne.
    + exists false. split; [done|]. split; [done|]. intros Hall.
      rewrite (Hall j a b' ltac:(lia) Ha Hb) in Hne. done.
    + destruct (IH (S j) ltac:(lia)) as (r & Hr & Hiff).
      exists r. split; [done|]. rewrite Hiff. split.
      * intros Hall j' a0 b0 Hj' Ha0 Hb0.
        destruct (decide (j' = j)) as [->|]; [congruence|].
        apply (Hall j'); [lia|done..].
      * intros Hall j' a0 b0 Hj'. apply Hall. lia.
Qed.

Lemma is_transpose_rows_spec (M N : nat) (A B : list (list D)) (len i : nat) :
  dims D N M A -> dims D M N B -> (i + len <= N)%nat ->
  exists r, is_transpose_rows D dne M A B i len = Ok r /\
    (r = true <->
     forall i' j' a b', (i <= i' < i + len)%nat -> (j' < M)%nat ->
       at2 D A i' j' = Some a -> at2 D B j' i' = Some b' -> dne a b' = false).
Proof.
  intros HA HB. revert i. induction len as [|len IH]; intros i Hi; simpl.
  - exists true. split; [done|]. split; [|done]. intros _ i' j' a b' Hi'. lia.
  - destruct (is_transpose_row_spec M N A B i M 0 HA HB ltac:(lia) ltac:(lia))
      as (r0 & -> & Hrow). simpl.
    destruct r0.
    + destruct (IH (S i) ltac:(lia)) as (r & Hr & Hiff).
      exists r. split; [done|]. rewrite Hiff. split.
      * intros Hall i' j' a b' Hi' Hj'.
        destruct (decide (i' = i)) as [->|].
        -- apply (proj1 Hrow eq_refl). lia.
        -- apply Hall; lia.
      * intros Hall i' j' a b' Hi'. apply Hall. lia.
    + exists false. split; [done|]. split; [done|]. intros Hall.
      apply Hrow. intros j' a b' Hj'. apply Hall; lia.
Qed.

Lemma is_transpose_spec (M N : nat) (A B : list (list D)) :
  dims D N M A -> dims D M N B ->
  exists r, is_transpose D dne M N A B = Ok r /\
    (r = true <->
     forall i j a b', (i < N)%nat -> (j < M)%nat ->
       at2 D A i j = Some a -> at2 D B j i = Some b' -> dne a b' = false).
Proof.
  intros HA HB. unfold is_transpose.
  destruct (is_transpose_rows_spec M N A B N 0 HA HB ltac:(lia)) as (r & Hr & Hiff).
  exists r. split; [done|]. rewrite Hiff. split.
  - intros Hall i j a b' Hi Hj. apply Hall; lia.
  - intros Hall i j a b' Hi Hj. apply Hall; lia.
Qed.

(** X11. For arrays of the declared sizes, [is_transpose] returns without
    leaving them, and it returns true exactly when no [A[i][j]] differs
    ([!=]) from [B[j][i]]: the early [return false] misses nothing. *)
Theorem is_transpose_decides (M N : nat) (A B : list (list D)) :
  dims D N M A -> dims D M N B ->
  exists r, is_transpose D dne M N A B = Ok r /\
    (r = true <->
     forall i j a b', (i < N)%nat -> (j < M)%nat ->
       at2 D A i j = Some a -> at2 D B j i = Some b' -> dne a b' = false).
Proof. intros HA HB. by apply is_transpose_spec. Qed.

(** The copy of [A] into [B] done by the loops of [trans_basic]. *)
Lemma trans_basic_loops (M N : nat) (A B : list (list D)) :
  dims D N M A -> dims D M N B ->
  exists B',
    for_range 0 N (fun i B1 =>
      for_range 0 M (fun j B2 =>
        rbind (get2 D A i j) (fun x => set2 D B2 j i x)) B1) B = Ok B' /\
    dims D M N B' /\
    forall i j, (i < N)%nat -> (j < M)%nat -> at2 D B' j i = at2 D A i j.
Proof.
  intros HA HB.
  destruct (copy_loops D id (fun _ => True)
              (fun i j B2 => rbind (get2 D A i j) (fun x => set2 D B2 j i x))
              M N A B) as (B' & Hfor & _ & Hd & Hat); try done.
  - intros i j X Hi Hj HX _.
    destruct (at2_Some D N M A i j HA Hi Hj) as [x Hx].
    destruct (set2_Ok D M N X j i x HX Hj Hi) as (X' & Hset & _).
    exists X', x. rewrite (get2_at2 A i j x Hx). simpl. done.
  - exists B'. split; [done|]. split; [done|].
    intros i j Hi Hj. rewrite Hat. by rewrite decide_True by lia.
Qed.

(** The same for [trans_tmp]: the elements go through [tmp[0..3]]. *)
Lemma trans_tmp_loops (M N : nat) (A B : list (list D)) (tmp : list D) :
  dims D N M A -> dims D M N B -> (4 <= length tmp)%nat ->
  exists B' tmp',
    for_range 0 N (fun i st1 =>
      for_range 0 M (fun j st2 =>
        let di := (i mod 2)%nat in
        let dj := (j mod 2)%nat in
        rbind (get2 D A i j) (fun x =>
        rbind (set1 D st2.2 (2 * di + dj) x) (fun tmp1 =>
        rbind (get1 D tmp1 (2 * di + dj)) (fun y =>
        rbind (set2 D st2.1 j i y) (fun B1 => Ok (B1, tmp1)))))) st1) (B, tmp)
      = Ok (B', tmp') /\
    dims D M N B' /\
    (forall i j, (i < N)%nat -> (j < M)%nat -> at2 D B' j i = at2 D A i j) /\
    length tmp' = length tmp /\
    (forall k, (4 <= k)%nat -> tmp' !! k = tmp !! k).
Proof.
  intros HA HB Htmp.
  destruct (copy_loops D fst
              (fun st => length st.2 = length tmp /\
                         forall k, (4 <= k)%nat -> st.2 !! k = tmp !! k)
              (fun i j st2 =>
                 let di := (i mod 2)%nat in
                 let dj := (j mod 2)%nat in
                 rbind (get2 D A i j) (fun x =>
                 rbind (set1 D st2.2 (2 * di + dj) x) (fun tmp1 =>
                 rbind (get1 D tmp1 (2 * di + dj)) (fun y =>
                 rbind (set2 D st2.1 j i y) (fun B1 => Ok (B1, tmp1))))))
              M N A (B, tmp)) as ([B' tmp'] & Hfor & (Hlen & Hhigh) & Hd & Hat);
    try done.
  - intros i j [X v] Hi Hj HX (Hlen & Hhigh). simpl in *.
    destruct (at2_Some D N M A i j HA Hi Hj) as [x Hx].
    destruct (set2_Ok D M N X j i x HX Hj Hi) as (X' & Hset & _).
    exists (X', <[(2 * (i mod 2) + j mod 2)%nat := x]> v), x.
    rewrite (get2_at2 A i j x Hx). simpl.
    assert (2 * (i mod 2) + j mod 2 < 4)%nat as Hk.
    { pose proof (Nat.mod_upper_bound i 2). pose proof (Nat.mod_upper_bound j 2). lia. }
    unfold set1. rewrite decide_True by lia. simpl.
    unfold get1. rewrite list_lookup_insert_eq by lia. simpl.
    rewrite Hset. simpl. split; [done|]. split; [|done].
    split; [by rewrite length_insert|].
    intros k Hk4. rewrite list_lookup_insert_ne by lia. by apply Hhigh.
  - exists B', tmp'. split; [done|]. split; [done|]. split; [|done].
    intros i j Hi Hj. rewrite Hat. by rewrite decide_True by lia.
Qed.

End TransposeChecks.

Section TransposeResults.

Variable D : Type.
Variable dne : D -> D -> bool.

(** The check at the end of a transpose function, once [B'] holds the
    transpose of [A]: it passes exactly when no element of [A] differs from
    itself. *)
Lemma is_transpose_after_copy (M N : nat) (A B' : list (list D)) :
  dims D N M A -> dims D M N B' ->
  (forall i j, (i < N)%nat -> (j < M)%nat -> at2 D B' j i = at2 D A i j) ->
  exists r, is_transpose D dne M N A B' = Ok r /\
    (r = true <->
     forall i j x, (i < N)%nat -> (j < M)%nat -> at2 D A i j = Some x ->
                   dne x x = false).
Proof.
  intros HA HB Hat.
  destruct (is_transpose_spec D dne M N A B' HA HB) as (r & Hr & Hiff).
  exists r. split; [done|]. rewrite Hiff. split.
  - intros Hall i j x Hi Hj Hx. apply (Hall i j x x Hi Hj Hx). by rewrite Hat.
  - intros Hall i j a b' Hi Hj Ha Hb. rewrite Hat, Ha in Hb by done.
    injection Hb as <-. by apply (Hall i j).
Qed.

Lemma trans_basic_result (M N : nat) (A B : list (list D)) (tmp : list D) :
  dims D N M A -> dims D M N B -> (0 < M)%nat -> (0 < N)%nat ->
  exists B' r,
    dims D M N B' /\
    (forall i j, (i < N)%nat -> (j < M)%nat -> at2 D B' j i = at2 D A i j) /\
    (r = true <->
     forall i j x, (i < N)%nat -> (j < M)%nat -> at2 D A i j = Some x ->
                   dne x x = false) /\
    trans_basic D dne M N A B tmp = if r then Ok (B', tmp) else AssertFailed.
Proof.
  intros HA HB HM HN. unfold trans_basic.
  destruct (Nat.eqb_spec M 0) as [|_]; [lia|].
  destruct (Nat.eqb_spec N 0) as [|_]; [lia|].
  destruct (trans_basic_loops D M N A B HA HB) as (B' & -> & Hd & Hat). simpl.
  destruct (is_transpose_after_copy M N A B' HA Hd Hat) as (r & -> & Hiff). simpl.
  by exists B', r.
Qed.

Lemma trans_tmp_result (M N : nat) (A B : list (list D)) (tmp : list D) :
  dims D N M A -> dims D M N B -> (0 < M)%nat -> (0 < N)%nat ->
  (4 <= length tmp)%nat ->
  exists B' tmp' r,
    dims D M N B' /\
    (forall i j, (i < N)%nat -> (j < M)%nat -> at2 D B' j i = at2 D A i j) /\
    length tmp' = length tmp /\
    (forall k, (4 <= k)%nat -> tmp' !! k = tmp !! k) /\
    (r = true <->
     forall i j x, (i < N)%nat -> (j < M)%nat -> at2 D A i j = Some x ->
                   dne x x = false) /\
    trans_tmp D dne M N A B tmp = if r then Ok (B', tmp') else AssertFailed.
Proof.
  intros HA HB HM HN Htmp. unfold trans_tmp.
  destruct (Nat.eqb_spec M 0) as [|_]; [lia|].
  destruct (Nat.eqb_spec N 0) as [|_]; [lia|].
  destruct (trans_tmp_loops D M N A B tmp HA HB Htmp)
    as (B' & tmp' & Hloops & Hd & Hat & Hlen & Hhigh).
  cbv zeta in Hloops. rewrite Hloops. simpl.
  destruct (is_transpose_after_copy M N A B' HA Hd Hat) as (r & -> & Hiff). simpl.
  by exists B', tmp', r.
Qed.

(** X12. With [M, N > 0], arrays of the declared sizes and no element of [A]
    that differs from itself, [trans_basic] returns with [B[j][i] = A[i][j]]
    for all [i < N], [j < M], and leaves [tmp] as it was. *)
Theorem trans_basic_transposes (M N : nat) (A B : list (list D)) (tmp : list D) :
  (0 < M)%nat -> (0 < N)%nat -> dims D N M A -> dims D M N B ->
  (forall i j x, (i < N)%nat -> (j < M)%nat -> at2 D A i j = Some x ->
                 dne x x = false) ->
  exists B',
    trans_basic D dne M N A B tmp = Ok (B', tmp) /\
    dims D M N B' /\
    forall i j, (i < N)%nat -> (j < M)%nat -> at2 D B' j i = at2 D A i j.
Proof.
  intros HM HN HA HB Hrefl.
  destruct (trans_basic_result M N A B tmp HA HB HM HN) as (B' & r & Hd & Hat & Hiff & ->).
  rewrite (proj2 Hiff Hrefl). by exists B'.
Qed.

(** X13. The three transpose functions abort on a failed [assert] when [M]
    or [N] is 0, and when [A] holds an element that differs from itself (a
    NaN): the copy is made, but the final [assert(is_transpose(...))]
    compares the element with its copy. *)
Theorem transpose_aborts (M N : nat) (A B : list (list D)) (tmp : list D) :
  dims D N M A -> dims D M N B -> (4 <= length tmp)%nat ->
  M = 0%nat \/ N = 0%nat \/
  (exists i j x, (i < N)%nat /\ (j < M)%nat /\ at2 D A i j = Some x /\
                 dne x x = true) ->
  trans_basic D dne M N A B tmp = AssertFailed /\
  trans_tmp D dne M N A B tmp = AssertFailed /\
  transpose_submit D dne M N A B tmp = AssertFailed.
Proof.
  intros HA HB Htmp Hbad.
  assert (trans_basic D dne M N A B tmp = AssertFailed /\
          trans_tmp D dne M N A B tmp = AssertFailed) as (Hb & Ht).
  { destruct (Nat.eqb_spec M 0) as [->|HM0]; [done|].
    destruct (Nat.eqb_spec N 0) as [->|HN0].
    { unfold trans_basic, trans_tmp. by destruct (M =? 0)%nat. }
    destruct Hbad as [?|[?|(i & j & x & Hi & Hj & Hx & Hne)]]; [done..|].
    destruct (trans_basic_result M N A B tmp HA HB ltac:(lia) ltac:(lia))
      as (B1 & r1 & _ & _ & Hiff1 & ->).
    destruct (trans_tmp_result M N A B tmp HA HB ltac:(lia) ltac:(lia) Htmp)
      as (B2 & tmp2 & r2 & _ & _ & _ & _ & Hiff2 & ->).
    destruct r1.
    { rewrite (proj1 Hiff1 eq_refl i j x Hi Hj Hx) in Hne. done. }
    destruct r2; [|done].
    rewrite (proj1 Hiff2 eq_refl i j x Hi Hj Hx) in Hne. done. }
  split; [done|]. split; [done|].
  unfold transpose_submit. by destruct (M =? N)%nat.
Qed.

(** X14. [trans_tmp], given a [tmp] of at least four elements, ends as
    [trans_basic] does: either both abort, or both return the same [B];
    [trans_tmp] then has changed at most [tmp[0..3]]. *)
Theorem trans_tmp_agrees_with_trans_basic (M N : nat) (A B : list (list D))
    (tmp : list D) :
  dims D N M A -> dims D M N B -> (4 <= length tmp)%nat ->
  (trans_basic D dne M N A B tmp = AssertFailed /\
   trans_tmp D dne M N A B tmp = AssertFailed) \/
  (exists B' tmp',
     trans_basic D dne M N A B tmp = Ok (B', tmp) /\
     trans_tmp D dne M N A B tmp = Ok (B', tmp') /\
     length tmp' = length tmp /\
     forall k, (4 <= k)%nat -> tmp' !! k = tmp !! k).
Proof.
  intros HA HB Htmp.
  destruct (Nat.eqb_spec M 0) as [->|HM0]; [by left|].
  destruct (Nat.eqb_spec N 0) as [->|HN0].
  { left. unfold trans_basic, trans_tmp. by destruct (M =? 0)%nat. }
  destruct (trans_basic_result M N A B tmp HA HB ltac:(lia) ltac:(lia))
    as (B1 & r1 & Hd1 & Hat1 & Hiff1 & ->).
  destruct (trans_tmp_result M N A B tmp HA HB ltac:(lia) ltac:(lia) Htmp)
    as (B2 & tmp2 & r2 & Hd2 & Hat2 & Hlen & Hhigh & Hiff2 & ->).
  assert (B2 = B1) as ->.
  { apply (matrix_ext D M N); [done..|]. intros j i Hj Hi.
    by rewrite Hat1, Hat2. }
  assert (r2 = r1) as ->.
  { destruct r1, r2; try done.
    - by pose proof (proj2 Hiff2 (proj1 Hiff1 eq_refl)).
    - by pose proof (proj2 Hiff1 (proj1 Hiff2 eq_refl)). }
  destruct r1; [right|by left]. by exists B1, tmp2.
Qed.

(** X15. [transpose_submit], whichever of the two functions it calls,
    returns the transpose: [B[j][i] = A[i][j]] for all [i < N], [j < M]. *)
Theorem transpose_submit_transposes (M N : nat) (A B : list (list D))
    (tmp : list D) :
  (0 < M)%nat -> (0 < N)%nat -> dims D N M A -> dims D M N B ->
  (4 <= length tmp)%nat ->
  (forall i j x, (i < N)%nat -> (j < M)%nat -> at2 D A i j = Some x ->
                 dne x x = false) ->
  exists B' tmp',
    transpose_submit D dne M N A B tmp = Ok (B', tmp') /\
    dims D M N B' /\
    (forall i j, (i < N)%nat -> (j < M)%nat -> at2 D B' j i = at2 D A i j) /\
    length tmp' = length tmp.
Proof.
  intros HM HN HA HB Htmp Hrefl. unfold transpose_submit.
  destruct (M =? N)%nat.
  - destruct (trans_basic_result M N A B tmp HA HB HM HN)
      as (B' & r & Hd & Hat & Hiff & ->).
    rewrite (proj2 Hiff Hrefl). by exists B', tmp.
  - destruct (trans_tmp_result M N A B tmp HA HB HM HN Htmp)
      as (B' & tmp' & r & Hd & Hat & Hlen & _ & Hiff & ->).
    rewrite (proj2 Hiff Hrefl). by exists B', tmp'.
Qed.

(** X16. Transposing back gives the matrix one started from: if
    [trans_basic] returns [B'] for [A], then [trans_basic] on [B'] returns
    [A], whatever the destination array held. *)
Theorem trans_basic_twice (M N : nat) (A B B' A0 : list (list D))
    (tmp tmp1 tmp2 : list D) :
  dims D N M A -> dims D M N B -> dims D N M A0 ->
  trans_basic D dne M N A B tmp = Ok (B', tmp1) ->
  trans_basic D dne N M B' A0 tmp2 = Ok (A, tmp2).
Proof.
  intros HA HB HA0 Hfirst.
  assert (0 < M /\ 0 < N)%nat as (HM & HN).
  { unfold trans_basic in Hfirst.
    destruct (Nat.eqb_spec M 0); [done|]. destruct (Nat.eqb_spec N 0); [done|]. lia. }
  destruct (trans_basic_result M N A B tmp HA HB HM HN)
    as (B1 & r & Hd & Hat & Hiff & Hres).
  rewrite Hres in Hfirst. destruct r; [|done]. injection Hfirst as -> _.
  pose proof (proj1 Hiff eq_refl) as Hrefl.
  destruct (trans_basic_result N M B' A0 tmp2 Hd HA0 HN HM)
    as (A1 & r' & Hd' & Hat' & Hiff' & ->).
  assert (r' = true) as ->.
  { apply Hiff'. intros j i x Hj Hi Hx. rewrite Hat in Hx by done.
    by apply (Hrefl i j). }
  assert (A1 = A) as ->; [|done].
  apply (matrix_ext D N M); [done..|]. intros i j Hi Hj.
  by rewrite Hat', Hat.
Qed.

End TransposeResults.

(** ** The transpose functions on a 2 x 3 matrix *)

Lemma is_transpose_decides_witness :
  let A := [[Num 1; Num 2; Num 3]; [Num 4; Num 5; Num 6]] in
  let B := [[Num 1; Num 4]; [Num 2; Num 5]; [Num 3; Num 7]] in
  exists r, is_transpose num num_ne 3 2 A B = Ok r /\ r = false.
Proof.
  intros A B.
  destruct (is_transpose_decides num num_ne 3 2 A B) as (r & Hr & _).
  - split; [reflexivity|]. repeat constructor.
  - split; [reflexivity|]. repeat constructor.
  - exists r. split; [exact Hr|]. vm_compute in Hr. by injection Hr as <-.
Defined.

Lemma trans_basic_transposes_witness :
  let A := [[Num 1; Num 2; Num 3]; [Num 4; Num 5; Num 6]] in
  let B := [[Num 0; Num 0]; [Num 0; Num 0]; [Num 0; Num 0]] in
  exists B',
    trans_basic num num_ne 3 2 A B [] = Ok (B', []) /\
    B' = [[Num 1; Num 4]; [Num 2; Num 5]; [Num 3; Num 6]].
Proof.
  intros A B.
  destruct (trans_basic_transposes num num_ne 3 2 A B []) as (B' & HB' & _).
  - lia.
  - lia.
  - split; [reflexivity|]. repeat constructor.
  - split; [reflexivity|]. repeat constructor.
  - intros i j x Hi Hj Hx.
    assert (exists z, x = Num z) as [z ->].
    { destruct i as [|[|i]], j as [|[|[|j]]]; try lia;
        vm_compute in Hx; injection Hx as <-; eauto. }
    simpl. by rewrite Z.eqb_refl.
  - exists B'. split; [exact HB'|]. vm_compute in HB'. by injection HB' as <-.
Defined.

Lemma transpose_aborts_witness :
  let A := [[Num 1; NaN; Num 3]; [Num 4; Num 5; Num 6]] in
  let B := [[Num 0; Num 0]; [Num 0; Num 0]; [Num 0; Num 0]] in
  let tmp := [Num 0; Num 0; Num 0; Num 0] in
  trans_basic num num_ne 3 2 A B tmp = AssertFailed /\
  trans_tmp num num_ne 3 2 A B tmp = AssertFailed /\
  transpose_submit num num_ne 3 2 A B tmp = AssertFailed.
Proof.
  intros A B tmp. apply (transpose_aborts num num_ne 3 2 A B tmp).
  - split; [reflexivity|]. repeat constructor.
  - split; [reflexivity|]. repeat constructor.
  - simpl. lia.
  - right. right. exists 0%nat, 1%nat, NaN. split; [lia|]. split; [lia|].
    split; reflexivity.
Defined.

Lemma trans_tmp_agrees_with_trans_basic_witness :
  let A := [[Num 1; Num 2; Num 3]; [Num 4; Num 5; Num 6]] in
  let B := [[Num 0; Num 0]; [Num 0; Num 0]; [Num 0; Num 0]] in
  let tmp := [Num 0; Num 0; Num 0; Num 0; Num 9] in
  exists B' tmp',
    trans_basic num num_ne 3 2 A B tmp = Ok (B', tmp) /\
    trans_tmp num num_ne 3 2 A B tmp = Ok (B', tmp') /\
    tmp' = [Num 3; Num 2; Num 6; Num 5; Num 9].
Proof.
  intros A B tmp.
  destruct (trans_tmp_agrees_with_trans_basic num num_ne 3 2 A B tmp)
    as [(Hb & _)|(B' & tmp' & Hb & Ht & _)].
  - split; [reflexivity|]. repeat constructor.
  - split; [reflexivity|]. repeat constructor.
  - simpl. lia.
  - vm_compute in Hb. discriminate Hb.
  - exists B', tmp'. split; [exact Hb|]. split; [exact Ht|].
    vm_compute in Ht. by injection Ht as _ <-.
Defined.

Lemma transpose_submit_transposes_witness :
  let A := [[Num 1; Num 2]; [Num 3; Num 4]] in
  let B := [[Num 0; Num 0]; [Num 0; Num 0]] in
  let tmp := [Num 0; Num 0; Num 0; Num 0] in
  exists B' tmp',
    transpose_submit num num_ne 2 2 A B tmp = Ok (B', tmp') /\
    B' = [[Num 1; Num 3]; [Num 2; Num 4]] /\ tmp' = tmp.
Proof.
  intros A B tmp.
  destruct (transpose_submit_transposes num num_ne 2 2 A B tmp)
    as (B' & tmp' & Hs & _).
  - lia.
  - lia.
  - split; [reflexivity|]. repeat constructor.
  - split; [reflexivity|]. repeat constructor.
  - simpl. lia.
  - intros i j x Hi Hj Hx.
    assert (exists z, x = Num z) as [z ->].
    { destruct i as [|[|i]], j as [|[|j]]; try lia;
        vm_compute in Hx; injection Hx as <-; eauto. }
    simpl. by rewrite Z.eqb_refl.
  - exists B', tmp'. split; [exact Hs|]. vm_compute in Hs.
    by injection Hs as <- <-.
Defined.

Lemma trans_basic_twice_witness :
  let A := [[Num 1; Num 2; Num 3]; [Num 4; Num 5; Num 6]] in
  let B := [[Num 0; Num 0]; [Num 0; Num 0]; [Num 0; Num 0]] in
  let B' := [[Num 1; Num 4]; [Num 2; Num 5]; [Num 3; Num 6]] in
  let A0 := [[Num 7; Num 7; Num 7]; [Num 7; Num 7; Num 7]] in
  trans_basic num num_ne 3 2 A B [] = Ok (B', []) /\
  trans_basic num num_ne 2 3 B' A0 [] = Ok (A, []).
Proof.
  intros A B B' A0. split; [reflexivity|].
  apply (trans_basic_twice num num_ne 3 2 A B B' A0 [] [] []).
  - split; [reflexivity|]. repeat constructor.
  - split; [reflexivity|]. repeat constructor.
  - split; [reflexivity|]. repeat constructor.
  - reflexivity.
Defined.

(** * Replacement does not depend on the write policy *)

Lemma touch_fmap (f : cacheLine -> cacheLine) (set : list cacheLine) (i : nat)
    (new : cacheLine) :
  (forall x v, f (set_lastUsed v x) = set_lastUsed v (f x)) ->
  (forall x, lastUsed (f x) = lastUsed x) ->
  touch (f <$> set) i (f new) = f <$> touch set i new.
Proof.
  intros Hf Hlu. apply list_eq. intros j.
  rewrite list_lookup_fmap, !touch_lookup, list_lookup_fmap.
  destruct (set !! j) as [l|]; simpl; [|done].
  case_decide; [done|]. by rewrite Hf, Hlu.
Qed.

Lemma findLeastRecentlyUsed_fmap (f : cacheLine -> cacheLine) (set : list cacheLine) :
  (forall x, lastUsed (f x) = lastUsed x) ->
  findLeastRecentlyUsed (f <$> set) = findLeastRecentlyUsed set.
Proof.
  intros Hf. unfold findLeastRecentlyUsed. rewrite length_fmap.
  apply fold_left_pointwise. intros m i.
  assert (forall k, lastUsedAt (f <$> set) k = lastUsedAt set k) as Hlu.
  { intros k. unfold lastUsedAt. rewrite list_lookup_fmap.
    destruct (set !! k) as [l|]; simpl; [|done]. apply Hf. }
  by rewrite !Hlu.
Qed.

Lemma updateData_set_forget (b : Z) (set : list cacheLine) (t : Z)
    (operation operation' : ascii) (st : csim_stats_t) :
  is_store operation' = false ->
  updateData_set b (set_dirty 0 <$> set) t operation' (forget_dirty_stats st) =
  ((updateData_set b set t operation st).1.1,
   set_dirty 0 <$> (updateData_set b set t operation st).1.2,
   forget_dirty_stats (updateData_set b set t operation st).2).
Proof.
  intros Hop.
  destruct (decide (set = [])) as [->|Hne].
  { unfold updateData_set, updateCache, markStore. simpl. rewrite Hop.
    by destruct (is_store operation). }
  assert (forall P `{!forall l, Decision (P l)},
            (forall l, P (set_dirty 0 l) <-> P l) ->
            list_find P (set_dirty 0 <$> set) =
            prod_map id (set_dirty 0) <$> list_find P set) as Hfind.
  { intros P ? HP. rewrite list_find_fmap. f_equal. by apply list_find_ext. }
  destruct (access_cases set t Hne)
    as [(i & l & Hhit)|[(Hmiss & i & l & Hfree)|(Hmiss & Hfull & l & Hv)]].
  - rewrite (updateData_set_hit b set _ _ _ i l Hhit).
    rewrite (updateData_set_hit b (set_dirty 0 <$> set) _ _ _ i (set_dirty 0 l)).
    + simpl. rewrite Hop. simpl. rewrite <- touch_fmap by done.
      unfold hit_line. rewrite Hop. simpl.
      destruct (is_store operation && (dirty l =? 0)); reflexivity.
    + rewrite Hfind by (intros ?; reflexivity). by rewrite Hhit.
  - rewrite (updateData_set_free b set _ _ _ i l Hmiss Hfree).
    rewrite (updateData_set_free b (set_dirty 0 <$> set) _ _ _ i (set_dirty 0 l)).
    + simpl. rewrite Hop. rewrite <- touch_fmap by done.
      unfold installed_line. rewrite Hop. destruct (is_store operation); reflexivity.
    + rewrite Hfind by (intros ?; reflexivity). by rewrite Hmiss.
    + rewrite Hfind by (intros ?; reflexivity). by rewrite Hfree.
  - rewrite (updateData_set_full b set _ _ _ l Hmiss Hfull Hv).
    rewrite (updateData_set_full b (set_dirty 0 <$> set) _ _ _ (set_dirty 0 l)).
    + simpl. rewrite Hop. rewrite findLeastRecentlyUsed_fmap by done.
      rewrite <- touch_fmap by done.
      unfold installed_line. rewrite Hop.
      destruct (is_store operation), (dirty l =? 0); reflexivity.
    + rewrite Hfind by (intros ?; reflexivity). by rewrite Hmiss.
    + rewrite Hfind by (intros ?; reflexivity). by rewrite Hfull.
    + by rewrite findLeastRecentlyUsed_fmap, list_lookup_fmap, Hv.
Qed.

Lemma step_forget (s b : Z) (r : traceRecord) (st : state) :
  step s b (as_load r) (forget_dirty st) = forget_dirty <$> step s b r st.
Proof.
  assert (forall operation operation',
            is_store operation' = false ->
            match updateData s b (rec_addr r) operation' (forget_dirty st) with
            | Some (_, st') => Some st' | None => None end =
            forget_dirty <$> match updateData s b (rec_addr r) operation st with
                             | Some (_, st') => Some st' | None => None end) as Hu.
  { intros operation operation' Hop. unfold updateData.
    destruct (decode s b (rec_addr r)) as [[set t]|]; [|done].
    unfold forget_dirty at 1. simpl. rewrite list_lookup_fmap.
    destruct (cache st !! Z.to_nat set) as [row|]; simpl; [|done].
    rewrite (updateData_set_forget b row t operation operation' _ Hop).
    destruct (updateData_set b row t operation (stats st)) as [[o row'] st'].
    simpl. unfold forget_dirty. simpl. by rewrite list_fmap_insert. }
  unfold step, as_load. destruct (is_store (rec_op r)) eqn:Hst; simpl.
  - rewrite orb_true_r. by apply Hu.
  - rewrite Hst, orb_false_r. destruct (is_load (rec_op r)); simpl; [|done]. by apply Hu.
Qed.

Lemma run_forget (s b : Z) (trace : list traceRecord) (st : state) :
  run s b (as_load <$> trace) (forget_dirty st) = forget_dirty <$> run s b trace st.
Proof.
  revert st. induction trace as [|r rest IH]; intros st; [done|].
  rewrite fmap_cons. simpl. rewrite step_forget.
  destruct (step s b r st) as [st1|]; simpl; [|done]. apply IH.
Qed.

(** X17. Hits, misses and evictions depend on the addresses only: the trace
    with every store replaced by a load of the same address gives the same
    three counters, and the same valid lines, tags and [lastUsed], as the
    trace itself. *)
Theorem stores_as_loads_same_replacement (s E b : Z) (junk : nat -> nat -> Z)
    (trace : list traceRecord) :
  run s b (as_load <$> trace) (init_state s E junk) =
  forget_dirty <$> run s b trace (init_state s E junk).
Proof.
  rewrite <- run_forget. f_equal.
  unfold forget_dirty, init_state, init. simpl. f_equal.
  rewrite <- list_fmap_compose. apply list_fmap_ext. intros _ i _. simpl.
  rewrite <- list_fmap_compose. by apply list_fmap_ext.
Qed.

(** * A working set that fits is never evicted *)

Section WorkingSet.

Variables (s E b : Z).
Variable blocks : list (Z * Z).

Hypothesis Hg : defined_geometry s E b.
Hypothesis Hfits :
  forall k, Z.of_nat (length (filter (fun p => p.1 = k) blocks)) <= E.

Lemma full_set_has_no_room (k : nat) (row : list cacheLine) (t : Z) :
  wf_set E row -> unique_tags row ->
  (forall i l, row !! i = Some l -> valid l = 1 -> (Z.of_nat k, tag l) ∈ blocks) ->
  list_find line_free row = None ->
  (Z.of_nat k, t) ∈ blocks ->
  exists l, l ∈ row /\ line_hit t l.
Proof.
  intros (Hlen & Hall) Huniq Hin Hfull Ht.
  rewrite list_find_None, Forall_lookup in Hfull. rewrite Forall_lookup in Hall.
  assert (forall i l, row !! i = Some l -> valid l = 1) as Hvalid.
  { intros i l Hi. destruct (Hall i l Hi) as ([H0|H1] & _); [|done].
    by destruct (Hfull i l Hi). }
  destruct (decide (t ∈ tag <$> row)) as [Hmem|Hnot].
  { apply list_elem_of_fmap in Hmem as (l & -> & Hl). exists l. split; [done|].
    apply list_elem_of_lookup in Hl as [i Hi]. split; [by eapply Hvalid|done]. }
  exfalso.
  assert (NoDup (tag <$> row)) as Hnd.
  { apply NoDup_alt. intros i j x. rewrite !list_lookup_fmap.
    destruct (row !! i) as [li|] eqn:Hi; simpl; [|done].
    destruct (row !! j) as [lj|] eqn:Hj; simpl; [|done].
    intros [= <-] [= Heq]. apply (Huniq i j li lj); eauto. }
  assert (NoDup ((fun x => (Z.of_nat k, x)) <$> (t :: (tag <$> row)))) as Hnd'.
  { apply NoDup_fmap_2; [by intros x y [= ->]|]. by apply NoDup_cons_2. }
  pose proof (NoDup_submseteq _ (filter (fun p => p.1 = Z.of_nat k) blocks) Hnd')
    as Hsub.
  apply submseteq_length in Hsub.
  - rewrite length_fmap in Hsub. simpl in Hsub. rewrite length_fmap in Hsub.
    specialize (Hfits (Z.of_nat k)). lia.
  - intros p (x & -> & Hx)%list_elem_of_fmap. apply list_elem_of_filter.
    split; [done|]. apply elem_of_cons in Hx as [->|Hx]; [done|].
    apply list_elem_of_fmap in Hx as (l & -> & Hl).
    apply list_elem_of_lookup in Hl as [i Hi]. apply (Hin i l Hi). by eapply Hvalid.
Qed.

Lemma run_fits (trace : list traceRecord) (st : state) :
  (forall r, r ∈ trace -> is_load (rec_op r) || is_store (rec_op r) = true ->
     exists p, decode s b (rec_addr r) = Some p /\ p ∈ blocks) ->
  wf_state s E b st -> holds_only blocks (cache st) -> evictions (stats st) = 0 ->
  exists st', run s b trace st = Some st' /\ evictions (stats st') = 0 /\
              holds_only blocks (cache st').
Proof.
  revert st. induction trace as [|r rest IH]; intros st Hdec Hwf Hholds Hev.
  - by exists st.
  - simpl. unfold step.
    assert (forall r0, r0 ∈ rest ->
              is_load (rec_op r0) || is_store (rec_op r0) = true ->
              exists p, decode s b (rec_addr r0) = Some p /\ p ∈ blocks) as Hrest.
    { intros r0 Hr0. apply Hdec. by apply list_elem_of_further. }
    destruct (is_load (rec_op r) || is_store (rec_op r)) eqn:Hop; [|by apply IH].
    destruct (Hdec r (list_elem_of_here _ _) Hop) as ([set t] & Hd & Hblock).
    destruct (updateData_wf s E b st (rec_addr r) (rec_op r) Hg Hwf)
      as (o & st1 & Hu & Hwf1).
    rewrite Hu. pose proof Hwf as ((Hlen & Hsets) & _).
    destruct (decode_row s E b (cache st) (rec_addr r) Hg (conj Hlen Hsets))
      as (set' & t' & row & Hd' & Hrow & Hwrow & Hne).
    assert (set' = set /\ t' = t) as (-> & ->) by (split; congruence).
    rewrite (updateData_unfold s b st _ _ set t row Hd Hrow) in Hu.
    injection Hu as _ Hst1.
    assert (0 <= set) as Hset0.
    { rewrite (decode_defined s E b _ Hg) in Hd. injection Hd as <- _.
      destruct Hg as ((? & _) & _). apply set_index_range. lia. }
    destruct (Hholds _ _ Hrow) as (Huniq & Hin).
    rewrite Z2Nat.id in Hin by done.
    assert (evictions (updateData_set b row t (rec_op r) (stats st)).2 = 0 /\
            forall i l, (updateData_set b row t (rec_op r) (stats st)).1.2 !! i = Some l ->
                        valid l = 1 -> (set, tag l) ∈ blocks) as (Hev1 & Hin1).
    { assert (forall i new, (set, tag new) ∈ blocks ->
                forall j l, touch row i new !! j = Some l -> valid l = 1 ->
                            (set, tag l) ∈ blocks) as Htouch.
      { intros i new Hnew j l (x & Hx & ->)%touch_lookup_Some.
        case_decide; [done|]. simpl. intros Hvx. by apply (Hin j x). }
      destruct (access_cases row t Hne)
        as [(i & l & Hhit)|[(Hmiss & i & l & Hfree)|(Hmiss & Hfull & l & Hv)]].
      - rewrite (updateData_set_hit b _ _ _ _ i l Hhit). simpl.
        apply list_find_Some in Hhit as (Hi & (Hval & <-) & _).
        split; [by destruct (_ && _)|]. apply Htouch. simpl. by apply (Hin i).
      - rewrite (updateData_set_free b _ _ _ _ i l Hmiss Hfree). simpl.
        split; [by destruct (is_store _)|]. by apply Htouch.
      - exfalso.
        destruct (full_set_has_no_room (Z.to_nat set) row t Hwrow Huniq)
          as (l0 & Hl0 & Hhit0); try done.
        + by rewrite Z2Nat.id.
        + by rewrite Z2Nat.id.
        + rewrite list_find_None, Forall_lookup in Hmiss.
          apply list_elem_of_lookup in Hl0 as [i0 Hi0]. by apply (Hmiss i0 l0). }
    apply IH; [done|done|..]; rewrite <- Hst1; simpl; [|done].
    intros k row0. destruct (decide (k = Z.to_nat set)) as [->|Hk].
    + rewrite list_lookup_insert_eq by (by eapply lookup_lt_Some).
      intros [= <-]. split; [by apply unique_tags_keep|].
      rewrite Z2Nat.id by done. apply Hin1.
    + rewrite list_lookup_insert_ne by done. apply Hholds.
Qed.

End WorkingSet.

(** X18. If the blocks a trace touches fit the cache, at most [E] of them
    in any one set, then the run evicts nothing: [evictions] is 0 at the
    end.  The blocks are given as the list [blocks] of the (set index, tag)
    pairs that the addresses of the loads and stores decode to. *)
Theorem working_set_that_fits_is_never_evicted (s E b : Z)
    (junk : nat -> nat -> Z) (trace : list traceRecord) (blocks : list (Z * Z)) :
  defined_geometry s E b ->
  (forall r, r ∈ trace -> is_load (rec_op r) || is_store (rec_op r) = true ->
     exists p, decode s b (rec_addr r) = Some p /\ p ∈ blocks) ->
  (forall k, Z.of_nat (length (filter (fun p => p.1 = k) blocks)) <= E) ->
  exists st,
    run s b trace (init_state s E junk) = Some st /\ evictions (stats st) = 0.
Proof.
  intros Hg Hdec Hfits.
  destruct (run_fits s E b blocks Hg Hfits trace (init_state s E junk) Hdec)
    as (st & Hrun & Hev & _); [by apply init_wf| |done|by exists st].
  intros k row Hk. unfold init_state, init in Hk. simpl in Hk.
  rewrite list_lookup_fmap in Hk.
  destruct (seq 0 (Z.to_nat (2 ^ s)) !! k); simpl in Hk; [|done].
  injection Hk as <-.
  assert (forall i l, ((fun j => mkLine 0 (junk n j) 0 0) <$> seq 0 (Z.to_nat E)) !! i
                      = Some l -> valid l = 0) as Hinv.
  { intros i l. rewrite list_lookup_fmap.
    destruct (seq 0 (Z.to_nat E) !! i); simpl; [|done]. by intros [= <-]. }
  split.
  - intros i j l1 l2 Hi _ Hv1. rewrite (Hinv i l1 Hi) in Hv1. done.
  - intros i l Hi Hv. rewrite (Hinv i l Hi) in Hv. done.
Qed.

Lemma working_set_that_fits_is_never_evicted_witness :
  exists st,
    run 1 0 [L 0; L 2; St 0; L 1; L 2; L 3; St 1; L 0] (init_state 1 2 nojunk) = Some st /\
    evictions (stats st) = 0 /\ misses (stats st) = 4 /\ hits (stats st) = 4.
Proof.
  destruct (working_set_that_fits_is_never_evicted 1 2 0 nojunk
              [L 0; L 2; St 0; L 1; L 2; L 3; St 1; L 0]
              [(0, 0); (0, 1); (1, 0); (1, 1)])
    as (st & Hrun & Hev).
  - unfold defined_geometry. lia.
  - intros r Hr _.
    repeat (apply elem_of_cons in Hr as [->|Hr]);
      try (eexists; split; [reflexivity|];
           repeat first [apply list_elem_of_here | apply list_elem_of_further]).
    by apply elem_of_nil in Hr.
  - intros k. rewrite !filter_cons, filter_nil. simpl.
    repeat case_decide; simpl; lia.
  - exists st. split; [exact Hrun|]. split; [exact Hev|].
    vm_compute in Hrun. injection Hrun as <-. split; reflexivity.
Defined.
